(** * Metrics module of LIT (lit_nlp/client/modules/metrics_module.ts)

    A shallow embedding of the aggregation core of [MetricsModule]: the row
    key derivation, the metrics store with its upsert and evictions, the
    asynchronous [addMetrics] with its in-flight counter, and the table
    projection.

    JS objects used as dictionaries ([metricsMap], [headMetrics],
    [MetricsValues]) are finite maps over strings, which hold their own
    properties.  A [FacetMap] is an insertion-ordered association list,
    because [getRowKey] reads it through [Object.values], whose order is the
    insertion order.  Where [tableData] reads a property by a name that the
    object does not have itself, the read goes on to what plain objects
    inherit from the host; the host is a parameter of the table
    projection. *)

From Stdlib Require Import ZArith String Ascii List Bool Lia.
From Stdlib Require Import SpecFloat.
From stdpp Require Import base option list strings gmap fin_maps.

Local Open Scope string_scope.
Local Open Scope list_scope.
Local Open Scope Z_scope.

(** ** Strings *)

Module Str.

(** [free c s]: the character [c] does not occur in [s]. *)
Fixpoint free (c : ascii) (s : string) : bool :=
  match s with
  | EmptyString => true
  | String a s' => negb (Ascii.eqb a c) && free c s'
  end.

(** Concatenation of the segments of [l], each closed by [c]: what a
    template literal [`${x}c${y}c...`] builds. *)
Fixpoint closed_concat (c : ascii) (l : list string) : string :=
  match l with
  | [] => ""
  | s :: l' => s +:+ String c (closed_concat c l')
  end.

End Str.

(** ** Data model (lines 33-72) *)

Inductive Source : Type := DATASET | SELECTION | SLICE.

Definition Source_toString (s : Source) : string :=
  match s with
  | DATASET => "dataset"
  | SELECTION => "selection"
  | SLICE => "slice"
  end.

Global Instance Source_eq_dec : EqDecision Source.
Proof. solve_decision. Defined.

(** [FacetMap] is declared in [lib/types]; here a facet value is a string,
    for which the template conversion [`${facetVal}`] is the identity.
    Entries are kept in insertion order. *)
Definition FacetMap : Type := list (string * string).

(** [Object.values(facetMap)]. *)
Definition Object_values (fm : FacetMap) : list string := map snd fm.

(** [facetMap[name]]. *)
Fixpoint FacetMap_get (fm : FacetMap) (name : string) : option string :=
  match fm with
  | [] => None
  | (k, v) :: fm' => if String.eqb k name then Some v else FacetMap_get fm' name
  end.

(** ** Row keys: [getRowKey] (lines 186-195) *)

Definition getRowKey (model datapointsId predKey : string)
    (facetMap : option FacetMap) : string :=
  let facetString :=
    match facetMap with
    | Some fm =>
        fold_left (λ acc facetVal, acc +:+ (facetVal +:+ "-")) (Object_values fm) ""
    | None => ""
    end in
  model +:+ "-" +:+ datapointsId +:+ "-" +:+ predKey +:+ "-" +:+ facetString.

(** ** Numbers

    A JS number is an IEEE 754 binary64 value: a [spec_float] that is valid
    for precision 53 and maximal exponent 1024. *)

Definition number : Type := spec_float.

Definition is_double (x : number) : bool := valid_binary 53 1024 x.

Definition is_finite (x : number) : bool :=
  match x with
  | S754_zero _ | S754_finite _ _ _ => true
  | S754_infinity _ | S754_nan => false
  end.

(** [x % 1 !== 0].  The remainder [x % 1] is NaN for NaN and the infinities
    (and NaN differs from 0), a zero for the zeros, and otherwise the
    fractional part of [x = m * 2^e], carrying the sign of [x]. *)
Definition rem1_nonzero (x : number) : bool :=
  match x with
  | S754_nan | S754_infinity _ => true
  | S754_zero _ => false
  | S754_finite _ m e =>
      if 0 <=? e then false
      else negb (Z.pos m mod 2 ^ (- e) =? 0)
  end.

(** Decimal digits of a natural number, most significant first; the empty
    string for 0. *)
Definition digit_char (d : Z) : ascii := ascii_of_nat (48 + Z.to_nat d).

Fixpoint digits_fuel (fuel : nat) (n : Z) (acc : string) : string :=
  match fuel with
  | O => acc
  | S fuel' =>
      if n <=? 0 then acc
      else digits_fuel fuel' (n / 10) (String (digit_char (n mod 10)) acc)
  end.

Definition decimal (n : Z) : string :=
  if n =? 0 then "0" else digits_fuel (S (Z.to_nat (Z.log2 n))) n "".

Fixpoint zeros (k : nat) : string :=
  match k with
  | O => ""
  | S k' => String "0" (zeros k')
  end.

(** The integer [n] with [n / 10^3 - x] closest to zero for [x = m * 2^e],
    the larger one on a tie. *)
Definition nearest_thousandth (m : positive) (e : Z) : Z :=
  let num := Z.pos m * 1000 * 2 ^ Z.max e 0 in
  let den := 2 ^ Z.max (- e) 0 in
  (2 * num + den) / (2 * den).

(** [10^21 <= m * 2^e]. *)
Definition ge_1e21 (m : positive) (e : Z) : bool :=
  10 ^ 21 * 2 ^ Z.max (- e) 0 <=? Z.pos m * 2 ^ Z.max e 0.

Section Formatting.

(** [Number::toString] of the language standard, to which [toFixed] defers
    for values that are not finite or are at least [10^21]. *)
Variable Number_toString : number → string.

(** [x.toFixed(3)] (ECMA-262, Number.prototype.toFixed with
    fractionDigits 3). *)
Definition toFixed3 (x : number) : string :=
  match x with
  | S754_nan | S754_infinity _ => Number_toString x
  | S754_zero _ => "0.000"
  | S754_finite s m e =>
      let sign := if s then "-" else "" in
      if ge_1e21 m e then sign +:+ Number_toString (S754_finite false m e)
      else
        let n := nearest_thousandth m e in
        let m0 := decimal n in
        let k := String.length m0 in
        let m1 := if (k <=? 3)%nat then zeros (3 + 1 - k) +:+ m0 else m0 in
        let k1 := String.length m1 in
        let a := String.substring 0 (k1 - 3) m1 in
        let b := String.substring (k1 - 3) 3 m1 in
        sign +:+ a +:+ "." +:+ b
  end.

End Formatting.

(** ** Records of the module (lines 33-72) *)

(** [IndexedInput] is declared in [lib/types]; the module reads only its
    [id]. *)
Module IndexedInput.
Record t : Type := { id : string }.
End IndexedInput.

(** Each entry from the server. *)
Record MetricsResponse : Type := {
  pred_key : string;
  label_key : string;
  metrics : gmap string number
}.

(** For rendering the table. *)
Record MetricsRow : Type := {
  model : string;
  selection : string;
  predKey : string;
  exampleIds : list string;
  headMetrics : gmap string (gmap string number);
  source : Source;
  facets : option FacetMap
}.

Definition with_exampleIds (ids : list string) (row : MetricsRow) : MetricsRow :=
  {| model := model row; selection := selection row; predKey := predKey row;
     exampleIds := ids; headMetrics := headMetrics row;
     source := source row; facets := facets row |}.

Definition with_headMetrics (h : gmap string (gmap string number))
    (row : MetricsRow) : MetricsRow :=
  {| model := model row; selection := selection row; predKey := predKey row;
     exampleIds := exampleIds row; headMetrics := h;
     source := source row; facets := facets row |}.

(** What one scoring request resolves to: for each metrics generator, in
    the key order of the response object, its list of per-field entries. *)
Definition ModelMetrics : Type := list (string * list MetricsResponse).

(** ** The metrics store: the loop body of [addMetrics] (lines 160-179)
    and the eviction loops (lines 107-111, 215-219, 231-235) *)

(** [datapoints.map(datapoint => datapoint.id)]. *)
Definition ids_of (datapoints : list IndexedInput.t) : list string :=
  map IndexedInput.id datapoints.

(** The body run for one [metricsResponse] of generator [metricsType]. *)
Definition upsert (model_i name : string) (datapoints : list IndexedInput.t)
    (src : Source) (facetMap : option FacetMap) (metricsType : string)
    (metricsResponse : MetricsResponse)
    (metricsMap : gmap string MetricsRow) : gmap string MetricsRow :=
  let rowKey := getRowKey model_i name (pred_key metricsResponse) facetMap in
  let m1 :=
    match metricsMap !! rowKey with
    | None =>
        <[rowKey :=
            {| model := model_i; selection := name;
               exampleIds := ids_of datapoints;
               predKey := pred_key metricsResponse;
               headMetrics := ∅; facets := facetMap; source := src |}]>
          metricsMap
    | Some _ => metricsMap
    end in
  let m2 := alter (with_exampleIds (ids_of datapoints)) rowKey m1 in
  alter (λ row, with_headMetrics
                  (<[metricsType := metrics metricsResponse]> (headMetrics row))
                  row)
        rowKey m2.

(** [Object.keys(metricsMap)]; the order of a finite map's keys is not
    tracked. *)
Definition Object_keys {V : Type} (m : gmap string V) : list string :=
  (map_to_list m).*1.

(** [Object.keys(this.metricsMap).forEach(key => { if (p(this.metricsMap[key]))
    delete this.metricsMap[key]; })]. *)
Definition evict (p : MetricsRow → bool) (metricsMap : gmap string MetricsRow)
    : gmap string MetricsRow :=
  fold_left
    (λ acc key,
       match acc !! key with
       | Some row => if p row then delete key acc else acc
       | None => acc
       end)
    (Object_keys metricsMap) metricsMap.

Definition is_selection (row : MetricsRow) : bool :=
  bool_decide (source row = SELECTION).

Definition is_slice (row : MetricsRow) : bool :=
  bool_decide (source row = SLICE).

(** [row.facets != null]. *)
Definition has_facets (row : MetricsRow) : bool :=
  match facets row with Some _ => true | None => false end.

(** ** Collaborators and module state (lines 90-98) *)

(** [CallConfig] is declared in [lib/types]: a configuration mapping. *)
Definition CallConfig : Type := gmap string string.

(** One group returned by [groupService.groupExamplesByFeatures]. *)
Record FacetedData : Type := {
  data : list IndexedInput.t;
  group_facets : option FacetMap
}.

(** What the module reads from [appState], [selectionService],
    [classificationService], [groupService] and [sliceService]. *)
Record Env : Type := {
  currentModels : list string;
  currentInputData : list IndexedInput.t;
  currentDataset : string;
  selectedInputData : list IndexedInput.t;
  marginSettings : gmap string CallConfig;
  groupExamplesByFeatures :
    list IndexedInput.t → list string → list (string * FacetedData);
  sliceNames : list string;
  getSliceDataByName : string → list IndexedInput.t
}.

(** The arguments of [apiService.getInterpretations] (lines 250-251). *)
Record Request : Type := {
  req_inputs : list IndexedInput.t;
  req_model : string;
  req_dataset : string;
  req_kind : string;
  req_config : CallConfig
}.

(** An invocation of [addMetrics] suspended at its [await] (line 143), with
    the locals its continuation reads. *)
Record Call : Type := {
  call_models : list string;
  call_datapoints : list IndexedInput.t;
  call_source : Source;
  call_facetMap : option FacetMap;
  call_displayName : option string
}.

(** The observable fields of the module, the invocations of [addMetrics]
    that wait at their [await], and the requests sent so far. *)
Record State : Type := {
  metricsMap : gmap string MetricsRow;
  facetBySlice : bool;
  selectedFacets : list string;
  pendingCalls : Z;
  awaiting : list Call;
  issued : list Request
}.

Definition initial : State :=
  {| metricsMap := ∅; facetBySlice := false; selectedFacets := [];
     pendingCalls := 0; awaiting := []; issued := [] |}.

Definition with_metricsMap (m : gmap string MetricsRow) (st : State) : State :=
  {| metricsMap := m; facetBySlice := facetBySlice st;
     selectedFacets := selectedFacets st; pendingCalls := pendingCalls st;
     awaiting := awaiting st; issued := issued st |}.

Definition with_facetBySlice (b : bool) (st : State) : State :=
  {| metricsMap := metricsMap st; facetBySlice := b;
     selectedFacets := selectedFacets st; pendingCalls := pendingCalls st;
     awaiting := awaiting st; issued := issued st |}.

Definition with_selectedFacets (l : list string) (st : State) : State :=
  {| metricsMap := metricsMap st; facetBySlice := facetBySlice st;
     selectedFacets := l; pendingCalls := pendingCalls st;
     awaiting := awaiting st; issued := issued st |}.

Definition with_pendingCalls (n : Z) (st : State) : State :=
  {| metricsMap := metricsMap st; facetBySlice := facetBySlice st;
     selectedFacets := selectedFacets st; pendingCalls := n;
     awaiting := awaiting st; issued := issued st |}.

Definition with_awaiting (l : list Call) (st : State) : State :=
  {| metricsMap := metricsMap st; facetBySlice := facetBySlice st;
     selectedFacets := selectedFacets st; pendingCalls := pendingCalls st;
     awaiting := l; issued := issued st |}.

Definition with_issued (l : list Request) (st : State) : State :=
  {| metricsMap := metricsMap st; facetBySlice := facetBySlice st;
     selectedFacets := selectedFacets st; pendingCalls := pendingCalls st;
     awaiting := awaiting st; issued := l |}.

(** ** [getMetrics] (lines 246-253) *)

(** The request [getMetrics] sends, if any: with no inputs it returns
    [undefined] at line 247 before anything is sent. *)
Definition getMetrics (env : Env) (selectedInputs : list IndexedInput.t)
    (model_i : string) : option Request :=
  if (length selectedInputs =? 0)%nat then None
  else
    let config := default ∅ (marginSettings env !! model_i) in
    Some {| req_inputs := selectedInputs; req_model := model_i;
            req_dataset := currentDataset env; req_kind := "metrics";
            req_config := config |}.

(** ** [addMetrics] (lines 134-183) *)

(** Lines 136-144, up to the [await]: the counter is incremented, then
    [getMetrics] runs for every model, and the invocation suspends. *)
Definition addMetrics (env : Env) (datapoints : list IndexedInput.t)
    (src : Source) (facetMap : option FacetMap) (displayName : option string)
    (st : State) : State :=
  let models := currentModels env in
  let st1 := with_pendingCalls (pendingCalls st + 1) st in
  let st2 :=
    with_issued (issued st1 ++ omap (getMetrics env datapoints) models)%list
                st1 in
  with_awaiting
    (awaiting st2 ++
       [{| call_models := models; call_datapoints := datapoints;
           call_source := src; call_facetMap := facetMap;
           call_displayName := displayName |}])
    st2.

(** How [await Promise.all(...)] ends: fulfilled with one result per model
    ([None] is the [undefined] of line 247), or rejected, which happens as
    soon as one of the requests fails. *)
Inductive Settled : Type :=
  | Fulfilled (datasetMetrics : list (option ModelMetrics))
  | Rejected.

(** Lines 150-153. *)
Definition display_name (src : Source) (facetMap : option FacetMap)
    (displayName : option string) : string :=
  let name :=
    match displayName with
    | Some d => d
    | None => Source_toString src
    end in
  match facetMap with
  | Some _ => name +:+ " (faceted)"
  | None => name
  end.

(** Lines 157-181 for one model's result. *)
Definition add_returned (model_i name : string)
    (datapoints : list IndexedInput.t) (src : Source)
    (facetMap : option FacetMap) (returnedMetrics : ModelMetrics)
    (m : gmap string MetricsRow) : gmap string MetricsRow :=
  fold_left
    (λ acc entry,
       fold_left
         (λ acc' metricsResponse,
            upsert model_i name datapoints src facetMap entry.1
                   metricsResponse acc')
         entry.2 acc)
    returnedMetrics m.

(** How an invocation ends. *)
Inductive Completion : Type :=
  | Returned
  | Threw_TypeError.

(** Lines 156-182.  [datasetMetrics] has one element per model, so element
    [i] is paired with [models[i]].  For an [undefined] element
    [Object.keys] throws, which ends the loop and the invocation. *)
Fixpoint forEach_datasetMetrics (name : string)
    (datapoints : list IndexedInput.t) (src : Source)
    (facetMap : option FacetMap)
    (l : list (string * option ModelMetrics))
    (m : gmap string MetricsRow) : gmap string MetricsRow * Completion :=
  match l with
  | [] => (m, Returned)
  | (_, None) :: _ => (m, Threw_TypeError)
  | (model_i, Some returnedMetrics) :: l' =>
      forEach_datasetMetrics name datapoints src facetMap l'
        (add_returned model_i name datapoints src facetMap returnedMetrics m)
  end.

(** Lines 145-182, the continuation after the [await]. *)
Definition addMetrics_resume (c : Call) (r : Settled) (st : State)
    : State * Completion :=
  let '(st1, datasetMetrics) :=
    match r with
    | Fulfilled l => (with_pendingCalls (pendingCalls st - 1) st, l)
    | Rejected => (with_pendingCalls (pendingCalls st - 1) st, [])
    end in
  let name :=
    display_name (call_source c) (call_facetMap c) (call_displayName c) in
  let '(m, completion) :=
    forEach_datasetMetrics name (call_datapoints c) (call_source c)
      (call_facetMap c) (combine (call_models c) datasetMetrics)
      (metricsMap st1) in
  (with_metricsMap m st1, completion).

(** ** Faceted and slice metrics (lines 197-244) *)

Definition updateFacetedMetrics (env : Env) (datapoints : list IndexedInput.t)
    (isSelection : bool) (st : State) : State :=
  if (0 <? length (selectedFacets st))%nat then
    let groupedExamples :=
      groupExamplesByFeatures env datapoints (selectedFacets st) in
    let src := if isSelection then SELECTION else DATASET in
    fold_left
      (λ acc group,
         addMetrics env (data group.2) src (group_facets group.2) None acc)
      groupedExamples st
  else st.

Definition updateAllFacetedMetrics (env : Env) (st : State) : State :=
  let st1 := with_metricsMap (evict has_facets (metricsMap st)) st in
  if (0 <? length (selectedFacets st1))%nat then
    updateFacetedMetrics env (currentInputData env) false
      (updateFacetedMetrics env (selectedInputData env) true st1)
  else st1.

Definition updateSliceMetrics (env : Env) (st : State) : State :=
  let st1 := with_metricsMap (evict is_slice (metricsMap st)) st in
  if facetBySlice st1 then
    fold_left
      (λ acc name,
         let d := getSliceDataByName env name in
         if (0 <? length d)%nat then addMetrics env d SLICE None (Some name) acc
         else acc)
      (sliceNames env) st1
  else st1.

(** ** Reactions and handlers (lines 101-131 and 340-356) *)

(** Lines 102-105, 119-122 and 129-130. *)
Definition on_dataset (env : Env) (st : State) : State :=
  updateAllFacetedMetrics env
    (addMetrics env (currentInputData env) DATASET None None st).

(** Lines 106-118. *)
Definition on_selection (env : Env) (st : State) : State :=
  let st1 := with_metricsMap (evict is_selection (metricsMap st)) st in
  if (0 <? length (selectedInputData env))%nat then
    updateFacetedMetrics env (selectedInputData env) true
      (addMetrics env (selectedInputData env) SELECTION None None st1)
  else st1.

(** Lines 123-126. *)
Definition on_sliceNames (env : Env) (st : State) : State :=
  updateSliceMetrics env (with_facetBySlice true st).

(** [firstUpdated]: [reactImmediately] runs the selection reaction once,
    then lines 129-130 run. *)
Definition firstUpdated (env : Env) (st : State) : State :=
  on_dataset env (on_selection env st).

(** [l.indexOf(key)], with [None] for -1. *)
Fixpoint indexOf (l : list string) (key : string) : option nat :=
  match l with
  | [] => None
  | x :: l' => if String.eqb x key then Some O else S <$> indexOf l' key
  end.

(** [l.splice(index, 1)] for [index = l.indexOf(key)]: the index -1 counts
    from the end, so the last element goes. *)
Definition splice1 (l : list string) (index : option nat) : list string :=
  match index with
  | Some i => (take i l ++ drop (S i) l)%list
  | None => take (length l - 1) l
  end.

(** Lines 340-348. *)
Definition onFeatureCheckboxChange (env : Env) (checked : bool) (key : string)
    (st : State) : State :=
  let facets' :=
    if checked then (selectedFacets st ++ [key])%list
    else splice1 (selectedFacets st) (indexOf (selectedFacets st) key) in
  updateAllFacetedMetrics env (with_selectedFacets facets' st).

(** Lines 353-356. *)
Definition onSlicesCheckboxChecked (env : Env) (st : State) : State :=
  updateSliceMetrics env (with_facetBySlice (negb (facetBySlice st)) st).

(** ** Runs of the module *)

Inductive Event : Type :=
  | FirstUpdated
  | CurrentInputDataChanged
  | SelectedInputDataChanged
  | MarginSettingsChanged
  | SliceNamesChanged
  | FeatureCheckboxChange (checked : bool) (key : string)
  | SlicesCheckboxChecked
  | Settle (i : nat) (r : Settled).

Definition is_undefined (o : option ModelMetrics) : bool :=
  match o with None => true | Some _ => false end.

(** The ways the [await] of a suspended invocation can end: [getMetrics]
    gave [undefined] for every model exactly when there were no datapoints,
    and a rejection needs a request that was sent. *)
Definition can_settle (c : Call) (r : Settled) : bool :=
  let no_inputs := (length (call_datapoints c) =? 0)%nat in
  match r with
  | Fulfilled l =>
      (length l =? length (call_models c))%nat
      && forallb (λ o, eqb (is_undefined o) no_inputs) l
  | Rejected =>
      negb no_inputs && (0 <? length (call_models c))%nat
  end.

(** One turn of the event loop.  The environment may differ from turn to
    turn.  [Settle i r] resumes the [i]-th suspended invocation; a
    [TypeError] thrown by its continuation rejects the promise of
    [addMetrics], which no caller awaits. *)
Definition handle (env : Env) (ev : Event) (st : State) : option State :=
  match ev with
  | FirstUpdated => Some (firstUpdated env st)
  | CurrentInputDataChanged => Some (on_dataset env st)
  | SelectedInputDataChanged => Some (on_selection env st)
  | MarginSettingsChanged => Some (on_dataset env st)
  | SliceNamesChanged => Some (on_sliceNames env st)
  | FeatureCheckboxChange checked key =>
      Some (onFeatureCheckboxChange env checked key st)
  | SlicesCheckboxChecked => Some (onSlicesCheckboxChecked env st)
  | Settle i r =>
      match awaiting st !! i with
      | Some c =>
          if can_settle c r then
            Some (addMetrics_resume c r
                    (with_awaiting (delete i (awaiting st)) st)).1
          else None
      | None => None
      end
  end.

Inductive reachable : State → Prop :=
  | reachable_initial : reachable initial
  | reachable_handle env ev st st' :
      reachable st → handle env ev st = Some st' → reachable st'.

(** ** The requests of a batch

    [Promise.all] (line 143) joins the promises that [getMetrics] returns,
    one per model. *)

(** The promise of one call of [getMetrics]. *)
Inductive PromiseState : Type :=
  | Pending                               (* its request is in flight *)
  | Resolved (v : option ModelMetrics)    (* fulfilled with [v] *)
  | Failed.                               (* rejected *)

(** The promises when [addMetrics] suspends: with no datapoints
    [getMetrics] has returned [undefined] at line 247, and else its request
    is in flight. *)
Definition initial_promises (c : Call) : list PromiseState :=
  map (λ _ : string,
         if (length (call_datapoints c) =? 0)%nat then Resolved None
         else Pending)
      (call_models c).

Definition is_Failed (p : PromiseState) : bool :=
  match p with
  | Failed => true
  | _ => false
  end.

Definition is_Resolved (p : PromiseState) : bool :=
  match p with
  | Resolved _ => true
  | _ => false
  end.

Fixpoint resolved_values (ps : list PromiseState)
    : option (list (option ModelMetrics)) :=
  match ps with
  | [] => Some []
  | Resolved v :: ps' =>
      match resolved_values ps' with
      | Some vs => Some (v :: vs)
      | None => None
      end
  | _ => None
  end.

(** [Promise.all(promises)]: rejected as soon as one promise is rejected,
    fulfilled with all the values once every promise is fulfilled, and
    pending otherwise. *)
Definition Promise_all (ps : list PromiseState) : option Settled :=
  if existsb is_Failed ps then Some Rejected
  else
    match resolved_values ps with
    | Some vs => Some (Fulfilled vs)
    | None => None
    end.

(** The module together with the promises of each waiting invocation, in
    the order of [awaiting]. *)
Record Run : Type := {
  module_state : State;
  promises : list (list PromiseState)
}.

Definition run_initial : Run := {| module_state := initial; promises := [] |}.

(** One turn of the event loop, with the requests told apart: a reaction
    or handler of the module runs; request [j] of waiting invocation [i]
    is answered or fails; or waiting invocation [i], whose [Promise.all] has
    settled, continues after its [await]. *)
Inductive Turn : Type :=
  | Occurs (ev : Event)
  | RequestFulfils (i j : nat) (v : ModelMetrics)
  | RequestFails (i j : nat)
  | Continues (i : nat).

Definition set_promise (i j : nat) (p : PromiseState) (run : Run) : option Run :=
  match promises run !! i with
  | Some ps =>
      match ps !! j with
      | Some Pending =>
          Some {| module_state := module_state run;
                  promises := <[i := <[j := p]> ps]> (promises run) |}
      | _ => None
      end
  | None => None
  end.

Definition turn (env : Env) (t : Turn) (run : Run) : option Run :=
  match t with
  | Occurs (Settle _ _) => None
  | Occurs ev =>
      match handle env ev (module_state run) with
      | Some st' =>
          Some {| module_state := st';
                  promises :=
                    promises run
                    ++ map initial_promises
                         (drop (length (awaiting (module_state run)))
                               (awaiting st')) |}
      | None => None
      end
  | RequestFulfils i j v => set_promise i j (Resolved (Some v)) run
  | RequestFails i j => set_promise i j Failed run
  | Continues i =>
      match promises run !! i with
      | Some ps =>
          match Promise_all ps with
          | Some r =>
              match handle env (Settle i r) (module_state run) with
              | Some st' =>
                  Some {| module_state := st';
                          promises := delete i (promises run) |}
              | None => None
              end
          | None => None
          end
      | None => None
      end
  end.

Inductive run_reachable : Run → Prop :=
  | run_reachable_initial : run_reachable run_initial
  | run_reachable_turn env t run run' :
      run_reachable run → turn env t run = Some run' → run_reachable run'.

(** ** The table projection: [tableData] (lines 256-307) *)

(** [s.split(": ")]: [cur] is the piece being read. *)
Fixpoint split_from (s cur : string) : list string :=
  match s with
  | EmptyString => [cur]
  | String a rest =>
      match rest with
      | String b rest' =>
          if Ascii.eqb a ":" && Ascii.eqb b " " then cur :: split_from rest' ""
          else split_from rest (cur +:+ String a "")
      | EmptyString => split_from rest (cur +:+ String a "")
      end
  end.

Definition split_colon_space (s : string) : list string := split_from s "".

(** [": "] occurs in [s]. *)
Fixpoint has_colon_space (s : string) : bool :=
  match s with
  | EmptyString => false
  | String a rest =>
      match rest with
      | String b _ => (Ascii.eqb a ":" && Ascii.eqb b " ") || has_colon_space rest
      | EmptyString => false
      end
  end.

(** What reading a property that is not an own property gives.  The
    objects of the module are plain objects, so [o[name]] for a [name] that
    [o] does not have itself goes on to what plain objects inherit from the
    host ([Object.prototype]: [toString], [constructor], ...), and reading
    further goes into those values.  [inherited [p1; ...; pn]] below stands
    for the outcome of reading [p1], ..., [pn] in turn, starting at a plain
    object that has no own [p1]. *)
Inductive Inherited : Type :=
  | Nullish                         (* [undefined] or [null] *)
  | InheritedNumber (x : number)    (* a number *)
  | InheritedOther (truthy : bool)  (* any other value, truthy or not *)
  | ReadThrows.                     (* the read throws *)

(** A value of a table cell: a string, a number, an array length, the
    inherited value found by reading the given property names, or no value
    because reading it threw (which ends [tableData]). *)
Inductive Cell : Type :=
  | CellString (s : string)
  | CellNumber (x : number)
  | CellLength (n : nat)
  | CellInherited (path : list string)
  | CellThrows.

Record TableHeaderAndData : Type := {
  header : list string;
  table_data : list (list Cell)
}.

(** [allMetricNames.add(x)]: a [Set] keeps the first insertion. *)
Definition Set_add (x : string) (s : list string) : list string :=
  if bool_decide (x ∈ s) then s else (s ++ [x])%list.

(** The column identifier of line 264. *)
Definition metric_column (metricsType metricName : string) : string :=
  metricsType +:+ ": " +:+ metricName.

(** Lines 259-269. *)
Definition metricNames_of (m : gmap string MetricsRow) : list string :=
  fold_left
    (λ acc row,
       fold_left
         (λ acc1 metricsType,
            let metricsValues := default ∅ (headMetrics row !! metricsType) in
            fold_left
              (λ acc2 metricName,
                 Set_add (metric_column metricsType metricName) acc2)
              (Object_keys metricsValues) acc1)
         (Object_keys (headMetrics row)) acc)
    (map_to_list m).*2 [].

(** [x] as a condition: [0], [-0] and [NaN] are falsy. *)
Definition number_truthy (x : number) : bool :=
  match x with
  | S754_zero _ | S754_nan => false
  | S754_infinity _ | S754_finite _ _ _ => true
  end.

Section Table.

Variable Number_toString : number → string.

(** The host: the outcome of reading the property names of a path in
    turn, starting at a plain object that has none of them itself. *)
Variable inherited : list string → Inherited.

(** Lines 289-294.  [row.facets[facet]] is the row's own facet value if it
    has one, and else what [row.facets] inherits; the empty string is the
    falsy facet value. *)
Definition facet_cell (row : MetricsRow) (facet : string) : Cell :=
  match facets row with
  | Some fm =>
      match FacetMap_get fm facet with
      | Some v => if String.eqb v "" then CellString "-" else CellString v
      | None =>
          match inherited [facet] with
          | Nullish => CellString "-"
          | InheritedNumber x =>
              if number_truthy x then CellNumber x else CellString "-"
          | InheritedOther truthy =>
              if truthy then CellInherited [facet] else CellString "-"
          | ReadThrows => CellThrows
          end
      end
  | None => CellString "-"
  end.

(** Lines 283-286 for a number. *)
Definition number_cell (num : number) : Cell :=
  if rem1_nonzero num then CellString (toFixed3 Number_toString num)
  else CellNumber num.

(** Lines 279-286 for a [num] that was not an own property. *)
Definition inherited_cell (path : list string) : Cell :=
  match inherited path with
  | Nullish => CellString "-"
  | InheritedNumber x => number_cell x
  | InheritedOther _ => CellInherited path
  | ReadThrows => CellThrows
  end.

(** Lines 273-287.  The destructuring takes the first two pieces of the
    split; a missing piece is [undefined], which as a property name reads
    ["undefined"].  [row.headMetrics[metricsType]] is the row's own
    generator entry if it has one, and else what [row.headMetrics]
    inherits; likewise for [metricName] in what was found. *)
Definition metric_cell (row : MetricsRow) (metricKey : string) : Cell :=
  let parts := split_colon_space metricKey in
  let metricsType := nth 0 parts "undefined" in
  let metricName := nth 1 parts "undefined" in
  match headMetrics row !! metricsType with
  | Some metricsValues =>
      match metricsValues !! metricName with
      | Some num => number_cell num
      | None => inherited_cell [metricName]
      end
  | None =>
      match inherited [metricsType] with
      | Nullish => CellString "-"
      | ReadThrows => CellThrows
      | InheritedNumber _ | InheritedOther _ =>
          inherited_cell [metricsType; metricName]
      end
  end.

(** Lines 296-298. *)
Definition table_row (facetNames metricNames : list string) (index : nat)
    (row : MetricsRow) : list Cell :=
  ([CellLength index; CellString (model row); CellString (selection row);
    CellString (predKey row); CellLength (length (exampleIds row))]
   ++ map (facet_cell row) facetNames
   ++ map (metric_cell row) metricNames)%list.

(** The header and the rows as the getter computes them.  This is what the
    getter returns unless reading one of the cells throws
    ([tableData_throws]), in which case the getter throws. *)
Definition tableData (st : State) : TableHeaderAndData :=
  let metricNames := metricNames_of (metricsMap st) in
  let nonMetricNames := ["Model"; "From"; "Field"; "N"] in
  {| header :=
       ("id" :: nonMetricNames ++ selectedFacets st ++ metricNames)%list;
     table_data :=
       imap (table_row (selectedFacets st) metricNames)
            (map_to_list (metricsMap st)).*2 |}.

Definition is_CellThrows (c : Cell) : bool :=
  match c with
  | CellThrows => true
  | _ => false
  end.

Definition tableData_throws (st : State) : bool :=
  existsb (existsb is_CellThrows) (table_data (tableData st)).

End Table.

(** ** [renderTable] and the spinner (lines 318-336 and 371) *)

(** [m.set(k, v)] on a [Map]: a present key keeps its place and takes the
    new value, a new key goes last. *)
Fixpoint Map_set (k : string) (v : bool) (m : list (string * bool))
    : list (string * bool) :=
  match m with
  | [] => [(k, v)]
  | (k', v') :: m' =>
      if String.eqb k' k then (k', v) :: m' else (k', v') :: Map_set k v m'
  end.

(** [m.get(k)]. *)
Fixpoint Map_get (k : string) (m : list (string * bool)) : option bool :=
  match m with
  | [] => None
  | (k', v') :: m' => if String.eqb k' k then Some v' else Map_get k m'
  end.

(** Lines 319-323. *)
Definition columnVisibility (columnNames : list string) : list (string * bool) :=
  fold_left
    (λ acc name, Map_set name (negb (String.eqb name "id")) acc)
    columnNames [].


(** Line 371: the spinner is rendered when [this.pendingCalls > 0]. *)
Definition spinner_shown (st : State) : bool := 0 <? pendingCalls st.


(** ** Notions used in the statements *)

(** The facet values a key is built from. *)
Definition facet_values (facetMap : option FacetMap) : list string :=
  match facetMap with
  | Some fm => Object_values fm
  | None => []
  end.

Definition dash_free (s : string) : Prop := Str.free "-" s = true.

(** What an eviction leaves of the entry under one key. *)
Definition unless (p : MetricsRow → bool) (o : option MetricsRow)
    : option MetricsRow :=
  match o with
  | Some row => if p row then None else Some row
  | None => None
  end.

(** The invocations of [addMetrics] that [updateFacetedMetrics] starts. *)
Definition facet_calls (env : Env) (src : Source)
    (datapoints : list IndexedInput.t) (facetNames : list string)
    : list Call :=
  map (λ group : string * FacetedData,
         {| call_models := currentModels env;
            call_datapoints := data group.2;
            call_source := src;
            call_facetMap := group_facets group.2;
            call_displayName := None |})
      (groupExamplesByFeatures env datapoints facetNames).

(** ** Sample data

    The scenario of a dataset of two examples scored by one model on the
    field [label], with generator [classification]. *)

(** The numbers 0.5 and 4 as binary64 values. *)
Definition num_0_5 : number := S754_finite false 4503599627370496 (-53).
Definition num_4 : number := S754_finite false 4503599627370496 (-50).

Definition two_examples : list IndexedInput.t :=
  [ {| IndexedInput.id := "e1" |}; {| IndexedInput.id := "e2" |} ].

Definition one_example : list IndexedInput.t :=
  [ {| IndexedInput.id := "e1" |} ].

Definition accuracy_response : MetricsResponse :=
  {| pred_key := "label"; label_key := "y";
     metrics := {[ "accuracy" := num_0_5 ]} |}.

Definition f1_response : MetricsResponse :=
  {| pred_key := "label"; label_key := "y";
     metrics := {[ "f1" := num_4 ]} |}.

Definition dataset_row : MetricsRow :=
  {| model := "sst2"; selection := "dataset"; predKey := "label";
     exampleIds := ["e1"; "e2"];
     headMetrics := {[ "classification" := {[ "accuracy" := num_0_5 ]} ]};
     source := DATASET; facets := None |}.

Definition dataset_store : gmap string MetricsRow :=
  {[ "sst2-dataset-label-" := dataset_row ]}.

(** The counter minus the number of invocations that wait at their
    [await]. *)
Definition excess (st : State) : Z :=
  pendingCalls st - Z.of_nat (length (awaiting st)).

(** An environment with one model, the two examples as dataset, nothing
    selected, no slices and no feature to group by. *)
Definition sample_env : Env :=
  {| currentModels := ["sst2"]; currentInputData := two_examples;
     currentDataset := "sst_dev"; selectedInputData := [];
     marginSettings := ∅; groupExamplesByFeatures := λ _ _, [];
     sliceNames := []; getSliceDataByName := λ _, [] |}.

(** The same environment with an empty dataset. *)
Definition empty_env : Env :=
  {| currentModels := ["sst2"]; currentInputData := [];
     currentDataset := "sst_dev"; selectedInputData := [];
     marginSettings := ∅; groupExamplesByFeatures := λ _ _, [];
     sliceNames := []; getSliceDataByName := λ _, [] |}.


(** A store holding one faceted row of the selection. *)
Definition faceted_selection_row : MetricsRow :=
  {| model := "sst2"; selection := "selection (faceted)"; predKey := "label";
     exampleIds := ["e1"];
     headMetrics := {[ "classification" := {[ "accuracy" := num_0_5 ]} ]};
     source := SELECTION; facets := Some [("label", "1")] |}.

Definition faceted_state : State :=
  {| metricsMap := {[ "sst2-selection (faceted)-label-1-" := faceted_selection_row ]};
     facetBySlice := false; selectedFacets := ["label"];
     pendingCalls := 0; awaiting := []; issued := [] |}.


(** ** Shape of a number printed with three decimals *)

Definition is_digit (c : ascii) : bool :=
  let n := nat_of_ascii c in ((48 <=? n) && (n <=? 57))%nat.

Fixpoint all_digits (s : string) : bool :=
  match s with
  | EmptyString => true
  | String c s' => is_digit c && all_digits s'
  end.

(** An optional minus sign, at least one digit, a point, three digits. *)
Definition three_decimals (s : string) : Prop :=
  ∃ sign a b : string,
    s = sign +:+ a +:+ "." +:+ b
    ∧ (sign = "" ∨ sign = "-")
    ∧ a ≠ "" ∧ all_digits a = true
    ∧ all_digits b = true ∧ String.length b = 3%nat.

(** The natural number that a string of decimal digits denotes, read from
    the left with [acc] as the value so far. *)
Fixpoint digits_value_from (s : string) (acc : Z) : Z :=
  match s with
  | EmptyString => acc
  | String c s' => digits_value_from s' (10 * acc + (Z.of_nat (nat_of_ascii c) - 48))
  end.

Definition digits_value (s : string) : Z := digits_value_from s 0.

(** A row whose generator name contains the separator of the column
    identifiers. *)
Definition colon_row : MetricsRow :=
  {| model := "t5"; selection := "dataset"; predKey := "output";
     exampleIds := ["e1"; "e2"];
     headMetrics := {[ "bleu: corpus" := {[ "score" := num_0_5 ]} ]};
     source := DATASET; facets := None |}.

Definition colon_state : State :=
  {| metricsMap := {[ "t5-dataset-output-" := colon_row ]};
     facetBySlice := false; selectedFacets := [];
     pendingCalls := 0; awaiting := []; issued := [] |}.

(** The dataset row with a second generator whose metric is a whole
    number. *)
Definition two_generator_row : MetricsRow :=
  {| model := "sst2"; selection := "dataset"; predKey := "label";
     exampleIds := ["e1"; "e2"];
     headMetrics :=
       {[ "classification" := {[ "accuracy" := num_0_5 ]};
          "counts" := {[ "n" := num_4 ]} ]};
     source := DATASET; facets := None |}.

Definition two_generator_state : State :=
  {| metricsMap := {[ "sst2-dataset-label-" := two_generator_row ]};
     facetBySlice := false; selectedFacets := [];
     pendingCalls := 0; awaiting := []; issued := [] |}.


(** What plain objects inherit, as far as the examples read it: the
    method [toString], a function whose [length] is 0.  No other name that
    the examples look up is inherited. *)
Definition sample_inherited (path : list string) : Inherited :=
  match path with
  | ["toString"] => InheritedOther true
  | ["toString"; "length"] => InheritedNumber (S754_zero false)
  | _ => Nullish
  end.

(** [Number::toString] on the values that are not finite; the examples
    below run with it, and none of them prints a number of [10^21] or
    more. *)
Definition toString_nonfinite (x : number) : string :=
  match x with
  | S754_nan => "NaN"
  | S754_infinity false => "Infinity"
  | S754_infinity true => "-Infinity"
  | _ => ""
  end.


(** A row whose generator is named like a method that every plain object
    inherits, beside the dataset row, which has no such generator. *)
Definition toString_row : MetricsRow :=
  {| model := "t5"; selection := "dataset"; predKey := "output";
     exampleIds := ["e1"; "e2"];
     headMetrics := {[ "toString" := {[ "length" := num_4 ]} ]};
     source := DATASET; facets := None |}.

Definition inherited_state : State :=
  {| metricsMap :=
       {[ "t5-dataset-output-" := toString_row;
          "sst2-dataset-label-" := dataset_row ]};
     facetBySlice := false; selectedFacets := [];
     pendingCalls := 0; awaiting := []; issued := [] |}.

(** The dataset row beside a row of the selection with another
    generator. *)
Definition regression_row : MetricsRow :=
  {| model := "sst2"; selection := "selection"; predKey := "label";
     exampleIds := ["e1"];
     headMetrics := {[ "regression" := {[ "f1" := num_4 ]} ]};
     source := SELECTION; facets := None |}.

Definition mixed_state : State :=
  {| metricsMap :=
       {[ "sst2-selection-label-" := regression_row;
          "sst2-dataset-label-" := dataset_row ]};
     facetBySlice := false; selectedFacets := [];
     pendingCalls := 0; awaiting := []; issued := [] |}.

(** An environment with two models, and the run in which the dataset
    batch of [firstUpdated] has lost its first request while the second is
    still in flight. *)
Definition two_model_env : Env :=
  {| currentModels := ["sst2"; "bert"]; currentInputData := two_examples;
     currentDataset := "sst_dev"; selectedInputData := [];
     marginSettings := ∅; groupExamplesByFeatures := λ _ _, [];
     sliceNames := []; getSliceDataByName := λ _, [] |}.

Definition one_failed_run : Run :=
  default run_initial
    (run1 ← turn two_model_env (Occurs FirstUpdated) run_initial;
     turn two_model_env (RequestFails 0 0) run1).

(** What can be said of a promise of a waiting invocation: it is fulfilled
    with [undefined] exactly when there were no datapoints. *)
Definition promise_ok (c : Call) (p : PromiseState) : Prop :=
  match p with
  | Resolved v => is_undefined v = (length (call_datapoints c) =? 0)%nat
  | Pending | Failed => (length (call_datapoints c) =? 0)%nat = false
  end.

Definition promises_ok (c : Call) (ps : list PromiseState) : Prop :=
  length ps = length (call_models c) ∧ Forall (promise_ok c) ps.

(** The waiting invocations and their promises go together. *)
Definition aligned (run : Run) : Prop :=
  Forall2 promises_ok (awaiting (module_state run)) (promises run).

(** ** Notions used in the further properties *)

(** The key under which a row belongs. *)
Definition key_of (row : MetricsRow) : string :=
  getRowKey (model row) (selection row) (predKey row) (facets row).

(** Two rows that agree on everything but [exampleIds] and
    [headMetrics]. *)
Definition same_identity (row row' : MetricsRow) : Prop :=
  model row' = model row ∧ selection row' = selection row
  ∧ predKey row' = predKey row ∧ source row' = source row
  ∧ facets row' = facets row.

(** The arguments the module passes to [addMetrics]: a slice comes with its
    name, without facets and with at least one example; the dataset and the
    selection come without a display name. *)
Definition call_site (src : Source) (facetMap : option FacetMap)
    (displayName : option string) (datapoints : list IndexedInput.t) : Prop :=
  match src with
  | SLICE => facetMap = None ∧ is_Some displayName ∧ datapoints ≠ []
  | _ => displayName = None
  end.

Definition call_ok (c : Call) : Prop :=
  call_site (call_source c) (call_facetMap c) (call_displayName c)
            (call_datapoints c).

(** The label a row of the dataset or of the selection carries, and the
    absence of facets on a row of a slice. *)
Definition row_ok (row : MetricsRow) : Prop :=
  match source row with
  | SLICE => facets row = None
  | src => selection row = display_name src (facets row) None
  end.

(** The results a continuation works on. *)
Definition results_of (r : Settled) : list (option ModelMetrics) :=
  match r with
  | Fulfilled l => l
  | Rejected => []
  end.

(** The upserts a continuation performs, in order: for each model up to
    the first [undefined] result, for each generator, for each entry. *)
Fixpoint upserts_of (l : list (string * option ModelMetrics))
    : list (string * string * MetricsResponse) :=
  match l with
  | [] => []
  | (_, None) :: _ => []
  | (model_i, Some returnedMetrics) :: l' =>
      flat_map (λ entry : string * list MetricsResponse,
                  map (λ resp, (model_i, entry.1, resp)) entry.2)
               returnedMetrics
      ++ upserts_of l'
  end.

(** The column identifiers of a list of rows, with repetitions, in the
    order [tableData] meets them. *)
Definition columns_of (rows : list MetricsRow) : list string :=
  flat_map
    (λ row,
       flat_map
         (λ metricsType,
            map (metric_column metricsType)
                (Object_keys (default ∅ (headMetrics row !! metricsType))))
         (Object_keys (headMetrics row)))
    rows.


(** The invocations of [addMetrics] that [updateSliceMetrics] starts. *)
Definition slice_calls (env : Env) : list Call :=
  map (λ name,
         {| call_models := currentModels env;
            call_datapoints := getSliceDataByName env name;
            call_source := SLICE; call_facetMap := None;
            call_displayName := Some name |})
      (filter (λ name, getSliceDataByName env name ≠ []) (sliceNames env)).


(** The state after [firstUpdated] in the sample environment and the
    settlement of its dataset request with the accuracy response. *)
Definition scenario_state : State :=
  default initial
    (st1 ← handle sample_env FirstUpdated initial;
     handle sample_env
       (Settle 0 (Fulfilled [Some [("classification", [accuracy_response])]]))
       st1).

(** * Properties *)

(** ** Strings *)

Module StrFacts.

Lemma app_nil_l (s : string) : "" +:+ s = s.
Proof. reflexivity. Qed.

Lemma app_cons (a : ascii) (s t : string) :
  String a s +:+ t = String a (s +:+ t).
Proof. reflexivity. Qed.

Lemma app_nil_r (s : string) : s +:+ "" = s.
Proof. induction s as [|a s IH]; [done|]. by rewrite app_cons, IH. Qed.

Lemma app_assoc (s t u : string) : (s +:+ t) +:+ u = s +:+ (t +:+ u).
Proof.
  induction s as [|a s IH]; [done|]. by rewrite !app_cons, IH.
Qed.

Lemma free_cons (c a : ascii) (s : string) :
  Str.free c (String a s) = true → a ≠ c ∧ Str.free c s = true.
Proof.
  simpl. intros [Ha Hs]%andb_true_iff. split; [|done].
  intros ->. by rewrite Ascii.eqb_refl in Ha.
Qed.

(** A segment free of [c] is read back up to the first [c]. *)
Lemma closed_head_inj (c : ascii) (s1 s2 r1 r2 : string) :
  Str.free c s1 = true → Str.free c s2 = true →
  s1 +:+ String c r1 = s2 +:+ String c r2 →
  s1 = s2 ∧ r1 = r2.
Proof.
  revert s2. induction s1 as [|a s1 IH]; intros [|b s2] F1 F2 E.
  - rewrite !app_nil_l in E. by injection E.
  - rewrite app_nil_l, app_cons in E. injection E as <- _.
    by destruct (free_cons _ _ _ F2).
  - rewrite app_nil_l, app_cons in E. injection E as -> _.
    by destruct (free_cons _ _ _ F1).
  - rewrite !app_cons in E. injection E as -> E.
    apply free_cons in F1 as [_ F1]. apply free_cons in F2 as [_ F2].
    by destruct (IH s2 F1 F2 E) as [-> ->].
Qed.

Lemma closed_concat_inj (c : ascii) (l1 l2 : list string) :
  Forall (λ s, Str.free c s = true) l1 →
  Forall (λ s, Str.free c s = true) l2 →
  Str.closed_concat c l1 = Str.closed_concat c l2 → l1 = l2.
Proof.
  intros F1. revert l2.
  induction F1 as [|s1 l1 Hs1 F1 IH]; intros l2 F2 E;
    destruct F2 as [|s2 l2 Hs2 F2]; simpl in E.
  - done.
  - destruct s2; rewrite ?app_nil_l, ?app_cons in E; discriminate.
  - destruct s1; rewrite ?app_nil_l, ?app_cons in E; discriminate.
  - destruct (closed_head_inj c s1 s2 _ _ Hs1 Hs2 E) as [-> E'].
    f_equal. by apply IH.
Qed.

End StrFacts.

(** ** Row keys *)

Lemma facetString_closed (l : list string) (init : string) :
  fold_left (λ acc facetVal, acc +:+ (facetVal +:+ "-")) l init
  = init +:+ Str.closed_concat "-" l.
Proof.
  revert init. induction l as [|v l IH]; intros init; simpl.
  - by rewrite StrFacts.app_nil_r.
  - rewrite IH, StrFacts.app_assoc. f_equal.
    by rewrite StrFacts.app_assoc.
Qed.

(** The key is the dash-closed concatenation of model, label, field and the
    facet values, in this order. *)
Lemma getRowKey_closed_concat (model_i label field : string)
    (facetMap : option FacetMap) :
  getRowKey model_i label field facetMap
  = Str.closed_concat "-" (model_i :: label :: field :: facet_values facetMap).
Proof.
  unfold getRowKey. simpl.
  assert (∀ s t, s +:+ "-" +:+ t = s +:+ String "-" t) as E.
  { intros s t. done. }
  rewrite !E. do 3 f_equal.
  destruct facetMap as [fm|]; simpl; [|done].
  by rewrite facetString_closed.
Qed.

Example getRowKey_faceted :
  getRowKey "sst2" "selection (faceted)" "label"
            (Some [("label", "1"); ("genre", "news")])
  = "sst2-selection (faceted)-label-1-news-".
Proof. reflexivity. Qed.

Example getRowKey_plain :
  getRowKey "sst2" "dataset" "label" None = "sst2-dataset-label-".
Proof. reflexivity. Qed.

(** C1, as stated, fails: the key does not escape dashes, so a dash in the
    model name or in the label moves the boundary between the two.  The
    model [sst2-tiny] with the label [dataset] and the model [sst2] with the
    slice label [tiny-dataset] get one key. *)
Lemma getRowKey_collision :
  getRowKey "sst2-tiny" "dataset" "probas" None
  = getRowKey "sst2" "tiny-dataset" "probas" None
  ∧ ("sst2-tiny", "dataset") ≠ ("sst2", "tiny-dataset").
Proof. split; [reflexivity | discriminate]. Qed.

(** C1 (amended): [getRowKey] is deterministic, and on inputs whose model,
    label, field and facet values contain no dash, equal keys come only from
    equal models, labels, fields and equal lists of facet values.  (The
    facet names are not part of the key, and an absent facet map gives the
    key of an empty one.) *)
Theorem getRowKey_deterministic_injective
    (m1 l1 p1 m2 l2 p2 : string) (f1 f2 : option FacetMap) :
  ((m1, l1, p1, f1) = (m2, l2, p2, f2) →
   getRowKey m1 l1 p1 f1 = getRowKey m2 l2 p2 f2)
  ∧ (Forall dash_free (m1 :: l1 :: p1 :: facet_values f1) →
     Forall dash_free (m2 :: l2 :: p2 :: facet_values f2) →
     getRowKey m1 l1 p1 f1 = getRowKey m2 l2 p2 f2 →
     m1 = m2 ∧ l1 = l2 ∧ p1 = p2 ∧ facet_values f1 = facet_values f2).
Proof.
  split.
  - by intros [= -> -> -> ->].
  - intros F1 F2 E. rewrite !getRowKey_closed_concat in E.
    apply StrFacts.closed_concat_inj in E; [|done..].
    by injection E as -> -> -> ->.
Qed.

Lemma getRowKey_deterministic_injective_witness :
  getRowKey "sst2" "dataset" "probas" (Some [("label", "1")])
  = getRowKey "sst2" "dataset" "probas" (Some [("label", "1")])
  ∧ ("sst2" = "sst2" ∧ "dataset" = "dataset" ∧ "probas" = "probas"
     ∧ facet_values (Some [("label", "1")]) = facet_values (Some [("gold", "1")])).
Proof.
  split.
  - apply (getRowKey_deterministic_injective
             "sst2" "dataset" "probas" "sst2" "dataset" "probas"
             (Some [("label", "1")]) (Some [("label", "1")])).
    reflexivity.
  - apply (getRowKey_deterministic_injective
             "sst2" "dataset" "probas" "sst2" "dataset" "probas"
             (Some [("label", "1")]) (Some [("gold", "1")])).
    + repeat constructor.
    + repeat constructor.
    + reflexivity.
Defined.

(** ** The metrics store *)

Section Evict.

Variable p : MetricsRow → bool.

Let step (acc : gmap string MetricsRow) (key : string) :=
  match acc !! key with
  | Some row => if p row then delete key acc else acc
  | None => acc
  end.

Lemma unless_idem (o : option MetricsRow) : unless p (unless p o) = unless p o.
Proof.
  destruct o as [row|]; simpl; [|done].
  destruct (p row) eqn:E; simpl; [done|]. by rewrite E.
Qed.

Lemma evict_step_lookup (m : gmap string MetricsRow) (key k : string) :
  step m key !! k = if decide (key = k) then unless p (m !! k) else m !! k.
Proof.
  unfold step. destruct (decide (key = k)) as [->|Hne].
  - destruct (m !! k) as [row|] eqn:E; simpl; [|by rewrite E].
    destruct (p row); [by rewrite lookup_delete_eq | by rewrite E].
  - destruct (m !! key) as [row|]; [|done].
    destruct (p row); [by rewrite lookup_delete_ne | done].
Qed.

Lemma evict_fold_lookup (ks : list string) (m : gmap string MetricsRow)
    (k : string) :
  fold_left step ks m !! k
  = if decide (k ∈ ks) then unless p (m !! k) else m !! k.
Proof.
  revert m. induction ks as [|key ks IH]; intros m.
  - destruct (decide (k ∈ [])) as [Hin|_]; [|done].
    by apply elem_of_nil in Hin.
  - change (fold_left step (key :: ks) m) with (fold_left step ks (step m key)).
    rewrite IH, evict_step_lookup.
    destruct (decide (key = k)) as [->|Hne].
    + destruct (decide (k ∈ k :: ks)) as [_|Hnin].
      * rewrite unless_idem. by destruct (decide (k ∈ ks)).
      * exfalso. apply Hnin. apply elem_of_cons. by left.
    + destruct (decide (k ∈ ks)) as [Hin|Hnin];
        destruct (decide (k ∈ key :: ks)) as [Hin'|Hnin']; try done.
      * exfalso. apply Hnin'. apply elem_of_cons. by right.
      * apply elem_of_cons in Hin' as [?|?]; congruence.
Qed.

(** The eviction loop removes the rows that satisfy [p] and no other. *)
Lemma evict_lookup (m : gmap string MetricsRow) (k : string) :
  evict p m !! k = unless p (m !! k).
Proof.
  unfold evict. fold step. rewrite evict_fold_lookup.
  destruct (decide (k ∈ Object_keys m)) as [Hin|Hnin]; [done|].
  destruct (m !! k) as [row|] eqn:E; [|done].
  exfalso. apply Hnin. unfold Object_keys.
  apply list_elem_of_fmap. exists (k, row). split; [done|].
  by apply elem_of_map_to_list.
Qed.

(** In one step: the loop is the filter that keeps the rows not
    satisfying [p]. *)
Lemma evict_filter (m : gmap string MetricsRow) :
  evict p m = filter (λ kv : string * MetricsRow, p kv.2 = false) m.
Proof.
  apply map_eq. intros k. rewrite evict_lookup, map_lookup_filter.
  destruct (m !! k) as [row|]; simpl; [|done].
  destruct (p row) eqn:E; case_guard; simpl in *; congruence.
Qed.

End Evict.

Section Upsert.

Variables (model_i name : string) (datapoints : list IndexedInput.t)
          (src : Source) (facetMap : option FacetMap)
          (metricsType : string) (resp : MetricsResponse).

Let rowKey := getRowKey model_i name (pred_key resp) facetMap.
Let up := upsert model_i name datapoints src facetMap metricsType resp.

Lemma upsert_lookup_absent (m : gmap string MetricsRow) :
  m !! rowKey = None →
  up m !! rowKey
  = Some {| model := model_i; selection := name;
            predKey := pred_key resp; exampleIds := ids_of datapoints;
            headMetrics := {[ metricsType := metrics resp ]};
            source := src; facets := facetMap |}.
Proof.
  intros E. unfold up, upsert. fold rowKey. rewrite E.
  rewrite !lookup_alter_eq, lookup_insert_eq. simpl.
  unfold with_headMetrics, with_exampleIds. simpl.
  by rewrite insert_empty.
Qed.

Lemma upsert_lookup_present (m : gmap string MetricsRow) (row : MetricsRow) :
  m !! rowKey = Some row →
  up m !! rowKey
  = Some {| model := model row; selection := selection row;
            predKey := predKey row; exampleIds := ids_of datapoints;
            headMetrics := <[metricsType := metrics resp]> (headMetrics row);
            source := source row; facets := facets row |}.
Proof.
  intros E. unfold up, upsert. fold rowKey. rewrite E.
  by rewrite !lookup_alter_eq, E.
Qed.

Lemma upsert_lookup_ne (m : gmap string MetricsRow) (k : string) :
  k ≠ rowKey → up m !! k = m !! k.
Proof.
  intros Hne. unfold up, upsert. fold rowKey.
  rewrite !lookup_alter_ne by done.
  destruct (m !! rowKey); [done|]. by rewrite lookup_insert_ne.
Qed.

End Upsert.

(** C5: an upsert inserts the row when its key is absent; when the key is
    present it replaces the row's [exampleIds] and sets the entry of the
    incoming generator in [headMetrics] to the incoming metrics as a whole,
    leaving the entries of the other generators; rows under other keys are
    left alone. *)
Theorem upsert_inserts_or_merges
    (model_i name : string) (datapoints : list IndexedInput.t)
    (src : Source) (facetMap : option FacetMap) (metricsType : string)
    (resp : MetricsResponse) (m : gmap string MetricsRow) :
  let rowKey := getRowKey model_i name (pred_key resp) facetMap in
  let m' := upsert model_i name datapoints src facetMap metricsType resp m in
  (m !! rowKey = None →
   m' !! rowKey
   = Some {| model := model_i; selection := name; predKey := pred_key resp;
             exampleIds := ids_of datapoints;
             headMetrics := {[ metricsType := metrics resp ]};
             source := src; facets := facetMap |})
  ∧ (∀ row, m !! rowKey = Some row →
       ∃ row', m' !! rowKey = Some row'
         ∧ exampleIds row' = ids_of datapoints
         ∧ headMetrics row' !! metricsType = Some (metrics resp)
         ∧ ∀ g, g ≠ metricsType → headMetrics row' !! g = headMetrics row !! g)
  ∧ (∀ k, k ≠ rowKey → m' !! k = m !! k).
Proof.
  intros rowKey m'. split; [|split].
  - apply upsert_lookup_absent.
  - intros row E. eexists. split; [by apply upsert_lookup_present|].
    simpl. split; [done|]. split; [apply lookup_insert_eq|].
    intros g Hg. by apply lookup_insert_ne.
  - intros k Hk. by apply upsert_lookup_ne.
Qed.

Lemma upsert_inserts_or_merges_witness :
  (upsert "sst2" "dataset" two_examples DATASET None "classification"
          accuracy_response ∅ !! "sst2-dataset-label-" = Some dataset_row)
  ∧ (∃ row',
       upsert "sst2" "dataset" one_example DATASET None "regression"
              f1_response dataset_store !! "sst2-dataset-label-" = Some row'
       ∧ exampleIds row' = ["e1"]
       ∧ headMetrics row' !! "regression" = Some {[ "f1" := num_4 ]}
       ∧ ∀ g, g ≠ "regression" →
              headMetrics row' !! g = headMetrics dataset_row !! g).
Proof.
  split.
  - apply (upsert_inserts_or_merges "sst2" "dataset" two_examples DATASET None
             "classification" accuracy_response ∅).
    reflexivity.
  - apply (upsert_inserts_or_merges "sst2" "dataset" one_example DATASET None
             "regression" f1_response dataset_store).
    reflexivity.
Defined.

(** C9: applying the same upsert twice in succession gives the store that
    applying it once gives. *)
Theorem upsert_idempotent
    (model_i name : string) (datapoints : list IndexedInput.t)
    (src : Source) (facetMap : option FacetMap) (metricsType : string)
    (resp : MetricsResponse) (m : gmap string MetricsRow) :
  upsert model_i name datapoints src facetMap metricsType resp
    (upsert model_i name datapoints src facetMap metricsType resp m)
  = upsert model_i name datapoints src facetMap metricsType resp m.
Proof.
  set (rowKey := getRowKey model_i name (pred_key resp) facetMap).
  apply map_eq. intros k.
  destruct (decide (k = rowKey)) as [->|Hne].
  - assert (∃ row, upsert model_i name datapoints src facetMap metricsType
                     resp m !! rowKey = Some row
                   ∧ exampleIds row = ids_of datapoints
                   ∧ <[metricsType := metrics resp]> (headMetrics row)
                     = headMetrics row) as (row & E & Hids & Hhead).
    { destruct (m !! rowKey) as [row0|] eqn:E0.
      - eexists. split; [by apply upsert_lookup_present|]. simpl.
        split; [done|]. apply insert_insert_eq.
      - eexists. split; [by apply upsert_lookup_absent|]. simpl.
        split; [done|]. apply insert_insert_eq. }
    rewrite (upsert_lookup_present _ _ _ _ _ _ _ _ row E), E.
    rewrite Hhead. destruct row; simpl in *. by subst.
  - by rewrite !upsert_lookup_ne.
Qed.

(** C10: when the key is already in the store, an upsert changes only the
    row's [exampleIds] and the [headMetrics] entry of the incoming
    generator; [model], [selection], [predKey], [source] and [facets] keep
    the values of the stored row, whatever the call carries. *)
Theorem upsert_existing_keeps_identity
    (model_i name : string) (datapoints : list IndexedInput.t)
    (src : Source) (facetMap : option FacetMap) (metricsType : string)
    (resp : MetricsResponse) (m : gmap string MetricsRow) (row : MetricsRow) :
  m !! getRowKey model_i name (pred_key resp) facetMap = Some row →
  ∃ row',
    upsert model_i name datapoints src facetMap metricsType resp m
      !! getRowKey model_i name (pred_key resp) facetMap = Some row'
    ∧ model row' = model row ∧ selection row' = selection row
    ∧ predKey row' = predKey row ∧ source row' = source row
    ∧ facets row' = facets row
    ∧ exampleIds row' = ids_of datapoints
    ∧ headMetrics row' = <[metricsType := metrics resp]> (headMetrics row).
Proof.
  intros E. eexists. split; [by apply upsert_lookup_present|]. done.
Qed.

(** A slice named [dataset] of the model [sst2] meets the key of the dataset
    row: the stored row stays a [DATASET] row. *)
Lemma upsert_existing_keeps_identity_witness :
  ∃ row',
    upsert "sst2" "dataset" one_example SLICE None "regression" f1_response
      dataset_store !! getRowKey "sst2" "dataset" (pred_key f1_response) None
    = Some row'
    ∧ model row' = model dataset_row ∧ selection row' = selection dataset_row
    ∧ predKey row' = predKey dataset_row ∧ source row' = source dataset_row
    ∧ facets row' = facets dataset_row
    ∧ exampleIds row' = ids_of one_example
    ∧ headMetrics row'
      = <["regression" := metrics f1_response]> (headMetrics dataset_row).
Proof.
  apply (upsert_existing_keeps_identity "sst2" "dataset" one_example SLICE None
           "regression" f1_response dataset_store dataset_row).
  reflexivity.
Defined.

(** ** The in-flight counter *)

Section AddMetrics.

Variables (env : Env) (datapoints : list IndexedInput.t) (src : Source)
          (facetMap : option FacetMap) (displayName : option string).

Lemma addMetrics_metricsMap (st : State) :
  metricsMap (addMetrics env datapoints src facetMap displayName st)
  = metricsMap st.
Proof. reflexivity. Qed.

Lemma addMetrics_selectedFacets (st : State) :
  selectedFacets (addMetrics env datapoints src facetMap displayName st)
  = selectedFacets st.
Proof. reflexivity. Qed.

Lemma addMetrics_pendingCalls (st : State) :
  pendingCalls (addMetrics env datapoints src facetMap displayName st)
  = pendingCalls st + 1.
Proof. reflexivity. Qed.

Lemma addMetrics_awaiting (st : State) :
  awaiting (addMetrics env datapoints src facetMap displayName st)
  = awaiting st
    ++ [{| call_models := currentModels env; call_datapoints := datapoints;
           call_source := src; call_facetMap := facetMap;
           call_displayName := displayName |}].
Proof. reflexivity. Qed.

Lemma addMetrics_excess (st : State) :
  excess (addMetrics env datapoints src facetMap displayName st) = excess st.
Proof.
  unfold excess. rewrite addMetrics_pendingCalls, addMetrics_awaiting.
  rewrite length_app. simpl. lia.
Qed.

End AddMetrics.

(** A loop that only starts invocations of [addMetrics] keeps the store
    and the excess. *)
Lemma fold_addMetrics_keeps {A : Type} (f : State → A → State) (l : list A) :
  (∀ st x, metricsMap (f st x) = metricsMap st
           ∧ selectedFacets (f st x) = selectedFacets st
           ∧ excess (f st x) = excess st) →
  ∀ st, metricsMap (fold_left f l st) = metricsMap st
        ∧ selectedFacets (fold_left f l st) = selectedFacets st
        ∧ excess (fold_left f l st) = excess st.
Proof.
  intros Hf. induction l as [|x l IH]; intros st; simpl; [done|].
  destruct (IH (f st x)) as (-> & -> & ->). apply Hf.
Qed.

Lemma updateFacetedMetrics_keeps (env : Env) (datapoints : list IndexedInput.t)
    (isSelection : bool) (st : State) :
  metricsMap (updateFacetedMetrics env datapoints isSelection st) = metricsMap st
  ∧ selectedFacets (updateFacetedMetrics env datapoints isSelection st)
    = selectedFacets st
  ∧ excess (updateFacetedMetrics env datapoints isSelection st) = excess st.
Proof.
  unfold updateFacetedMetrics.
  destruct (0 <? length (selectedFacets st))%nat; [|done].
  apply fold_addMetrics_keeps. intros st' group.
  by rewrite addMetrics_excess.
Qed.

(** Rewrites the store (or the excess) below an outermost
    [updateFacetedMetrics]. *)
Ltac through_updateFacetedMetrics :=
  match goal with
  | |- context [metricsMap (updateFacetedMetrics ?e ?d ?b ?s)] =>
      destruct (updateFacetedMetrics_keeps e d b s) as (-> & _)
  | |- context [excess (updateFacetedMetrics ?e ?d ?b ?s)] =>
      destruct (updateFacetedMetrics_keeps e d b s) as (_ & _ & ->)
  end.

Lemma updateAllFacetedMetrics_excess (env : Env) (st : State) :
  excess (updateAllFacetedMetrics env st) = excess st.
Proof.
  unfold updateAllFacetedMetrics.
  destruct (0 <? length _)%nat; [|done].
  by do 2 through_updateFacetedMetrics.
Qed.

Lemma updateSliceMetrics_excess (env : Env) (st : State) :
  excess (updateSliceMetrics env st) = excess st.
Proof.
  unfold updateSliceMetrics.
  destruct (facetBySlice _); [|done].
  match goal with
  | |- excess (fold_left ?f ?l ?s) = _ =>
      destruct (fold_addMetrics_keeps f l) with (st := s) as (_ & _ & ->);
        [|done]
  end.
  intros st' name. destruct (0 <? length _)%nat; [|done].
  by rewrite addMetrics_excess.
Qed.

Lemma on_dataset_excess (env : Env) (st : State) :
  excess (on_dataset env st) = excess st.
Proof.
  unfold on_dataset. by rewrite updateAllFacetedMetrics_excess, addMetrics_excess.
Qed.

Lemma on_selection_excess (env : Env) (st : State) :
  excess (on_selection env st) = excess st.
Proof.
  unfold on_selection. destruct (0 <? length _)%nat; [|done].
  through_updateFacetedMetrics. by rewrite addMetrics_excess.
Qed.

(** The continuation decrements the counter on both of its paths, and
    touches neither the suspended invocations nor the requests. *)
Lemma addMetrics_resume_fields (c : Call) (r : Settled) (st : State) :
  pendingCalls (addMetrics_resume c r st).1 = pendingCalls st - 1
  ∧ awaiting (addMetrics_resume c r st).1 = awaiting st
  ∧ issued (addMetrics_resume c r st).1 = issued st
  ∧ selectedFacets (addMetrics_resume c r st).1 = selectedFacets st
  ∧ facetBySlice (addMetrics_resume c r st).1 = facetBySlice st.
Proof.
  unfold addMetrics_resume.
  destruct r as [l|]; simpl;
    match goal with
    | |- context [forEach_datasetMetrics ?a ?b ?c ?d ?e ?f] =>
        destruct (forEach_datasetMetrics a b c d e f)
    end; done.
Qed.

Lemma handle_excess (env : Env) (ev : Event) (st st' : State) :
  handle env ev st = Some st' → excess st' = excess st.
Proof.
  destruct ev; simpl; try (intros [= <-]).
  - unfold firstUpdated. by rewrite on_dataset_excess, on_selection_excess.
  - apply on_dataset_excess.
  - apply on_selection_excess.
  - apply on_dataset_excess.
  - unfold on_sliceNames. by rewrite updateSliceMetrics_excess.
  - unfold onFeatureCheckboxChange. by rewrite updateAllFacetedMetrics_excess.
  - unfold onSlicesCheckboxChecked. by rewrite updateSliceMetrics_excess.
  - destruct (awaiting st !! i) as [c|] eqn:E; [|done].
    destruct (can_settle c r); [|done]. intros [= <-].
    unfold excess.
    destruct (addMetrics_resume_fields c r
                (with_awaiting (delete i (awaiting st)) st)) as (-> & -> & _).
    simpl. apply lookup_lt_Some in E.
    rewrite length_delete by by apply lookup_lt_is_Some_2.
    lia.
Qed.

Lemma reachable_excess (st : State) : reachable st → excess st = 0.
Proof.
  induction 1 as [|env ev st st' _ IH H]; [done|].
  by rewrite (handle_excess _ _ _ _ H).
Qed.

(** With the awaited batch taken as a whole: an invocation of [addMetrics]
    adds one to [pendingCalls] when it starts and its continuation takes
    one off, fulfilled or rejected; so in every run of the module the
    counter equals the number of invocations still waiting. *)
Lemma pendingCalls_counts_awaiting :
  (∀ env datapoints src facetMap displayName st,
     pendingCalls (addMetrics env datapoints src facetMap displayName st)
     = pendingCalls st + 1)
  ∧ (∀ c r st, pendingCalls (addMetrics_resume c r st).1 = pendingCalls st - 1)
  ∧ (∀ st, reachable st →
       pendingCalls st = Z.of_nat (length (awaiting st))
       ∧ 0 ≤ pendingCalls st
       ∧ (awaiting st = [] → pendingCalls st = 0)).
Proof.
  split; [|split].
  - intros. apply addMetrics_pendingCalls.
  - intros. by destruct (addMetrics_resume_fields c r st) as (-> & _).
  - intros st Hst. apply reachable_excess in Hst. unfold excess in Hst.
    split; [lia|]. split; [lia|].
    intros E. rewrite E in Hst. simpl in Hst. lia.
Qed.

(** C3: when the awaited batch is rejected, the continuation leaves the
    store as it was, takes one off the counter, and returns without
    throwing. *)
Theorem rejected_batch_discarded (c : Call) (st : State) :
  metricsMap (addMetrics_resume c Rejected st).1 = metricsMap st
  ∧ pendingCalls (addMetrics_resume c Rejected st).1 = pendingCalls st - 1
  ∧ (addMetrics_resume c Rejected st).2 = Returned.
Proof.
  unfold addMetrics_resume. by rewrite combine_nil.
Qed.

(** C4, as stated, fails: with no datapoints the counter still goes up when
    the invocation starts, here from 0 to 1. *)
Lemma addMetrics_empty_changes_counter :
  pendingCalls initial = 0
  ∧ pendingCalls (addMetrics empty_env [] DATASET None None initial) = 1.
Proof. split; reflexivity. Qed.

Lemma forEach_undefined (name : string) (datapoints : list IndexedInput.t)
    (src : Source) (facetMap : option FacetMap) (models : list string)
    (l : list (option ModelMetrics)) (m : gmap string MetricsRow) :
  forallb is_undefined l = true →
  (forEach_datasetMetrics name datapoints src facetMap (combine models l) m).1
  = m.
Proof.
  intros Hl. destruct models as [|model_i models]; [done|].
  destruct l as [|[resp|] l]; [done| |done].
  simpl in Hl. discriminate.
Qed.

(** C4 (amended): started with no datapoints, [addMetrics] sends no request
    and leaves the store alone; the counter goes up by one while the
    invocation waits, and when its batch settles the module state is again
    the one before the call. *)
Theorem addMetrics_empty_restores
    (env : Env) (src : Source) (facetMap : option FacetMap)
    (displayName : option string) (st : State) :
  let c := {| call_models := currentModels env; call_datapoints := [];
              call_source := src; call_facetMap := facetMap;
              call_displayName := displayName |} in
  let st1 := addMetrics env [] src facetMap displayName st in
  issued st1 = issued st
  ∧ metricsMap st1 = metricsMap st
  ∧ pendingCalls st1 = pendingCalls st + 1
  ∧ awaiting st1 = awaiting st ++ [c]
  ∧ ∀ env' r, can_settle c r = true →
              handle env' (Settle (length (awaiting st)) r) st1 = Some st.
Proof.
  intros c st1.
  assert (omap (getMetrics env []) (currentModels env) = []) as Hreq.
  { induction (currentModels env) as [|x l IH]; [done|]. by simpl. }
  split. { simpl. by rewrite Hreq, app_nil_r. }
  do 3 (split; [done|]).
  intros env' [l|] Hr; [|done].
  unfold handle.
  replace (awaiting st1 !! length (awaiting st)) with (Some c)
    by (symmetry; apply list_lookup_middle; done).
  rewrite Hr.
  replace (delete (length (awaiting st)) (awaiting st1)) with (awaiting st)
    by (symmetry; etrans; [apply (delete_middle _ [] c)|apply app_nil_r]).
  unfold can_settle in Hr. simpl in Hr.
  apply andb_true_iff in Hr as [_ Hl].
  assert (forallb is_undefined l = true) as Hu.
  { apply forallb_forall. intros o Ho.
    rewrite forallb_forall in Hl. specialize (Hl o Ho).
    by destruct (is_undefined o). }
  unfold addMetrics_resume.
  pose proof (forEach_undefined
    (display_name (call_source c) (call_facetMap c) (call_displayName c))
    (call_datapoints c) (call_source c) (call_facetMap c) (call_models c) l
    (metricsMap st) Hu) as E.
  simpl in *.
  destruct (forEach_datasetMetrics _ _ _ _ _ _) as [m completion].
  simpl in E. subst m. destruct st; simpl.
  unfold with_metricsMap, with_pendingCalls; simpl. f_equal. f_equal; [lia|].
  by rewrite Hreq, app_nil_r.
Qed.

Lemma addMetrics_empty_restores_witness :
  handle sample_env (Settle (length (awaiting initial)) (Fulfilled [None]))
         (addMetrics empty_env [] DATASET None None initial)
  = Some initial.
Proof.
  apply (addMetrics_empty_restores empty_env DATASET None None initial).
  reflexivity.
Defined.

(** ** Evictions *)

(** C6, as stated, fails: the purge run when the selection changes tests the
    source only, so a row of the selection that carries facets goes too. *)
Lemma selection_purge_takes_faceted_row :
  metricsMap faceted_state !! "sst2-selection (faceted)-label-1-"
  = Some faceted_selection_row
  ∧ has_facets faceted_selection_row = true
  ∧ metricsMap (on_selection sample_env faceted_state)
      !! "sst2-selection (faceted)-label-1-" = None.
Proof. repeat split; vm_compute; reflexivity. Qed.

(** C6 (amended): when the selection changes, the rows whose source is the
    selection are purged from the store, with or without facets, and the
    rows of the other sources are left as they are. *)
Theorem on_selection_purges_selection_rows
    (env : Env) (st : State) (k : string) :
  metricsMap (on_selection env st) !! k
  = match metricsMap st !! k with
    | Some row => if bool_decide (source row = SELECTION) then None else Some row
    | None => None
    end.
Proof.
  unfold on_selection.
  assert (metricsMap
            (with_metricsMap (evict is_selection (metricsMap st)) st) !! k
          = unless is_selection (metricsMap st !! k)) as E.
  { simpl. apply evict_lookup. }
  destruct (0 <? length (selectedInputData env))%nat; [|done].
  through_updateFacetedMetrics. by rewrite addMetrics_metricsMap.
Qed.

Lemma fold_addMetrics_awaiting (env : Env) (src : Source)
    (groups : list (string * FacetedData)) (st : State) :
  awaiting
    (fold_left
       (λ acc group,
          addMetrics env (data group.2) src (group_facets group.2) None acc)
       groups st)
  = awaiting st
    ++ map (λ group : string * FacetedData,
              {| call_models := currentModels env;
                 call_datapoints := data group.2;
                 call_source := src;
                 call_facetMap := group_facets group.2;
                 call_displayName := None |})
           groups.
Proof.
  revert st. induction groups as [|g groups IH]; intros st; simpl.
  - by rewrite app_nil_r.
  - rewrite IH, addMetrics_awaiting. by rewrite <- app_assoc.
Qed.

Lemma updateFacetedMetrics_awaiting (env : Env)
    (datapoints : list IndexedInput.t) (isSelection : bool) (st : State) :
  selectedFacets st ≠ [] →
  awaiting (updateFacetedMetrics env datapoints isSelection st)
  = awaiting st
    ++ facet_calls env (if isSelection then SELECTION else DATASET)
         datapoints (selectedFacets st).
Proof.
  intros Hne. unfold updateFacetedMetrics.
  destruct (selectedFacets st) as [|f fs] eqn:E; [done|]. simpl.
  apply fold_addMetrics_awaiting.
Qed.

(** C7: [updateAllFacetedMetrics] first evicts every row whose [facets] is
    not null and keeps the others, so the store it leaves has no row with
    facets; with no facet dimension selected it starts nothing, and with at
    least one it starts the faceted invocations for the selection and for
    the full dataset. *)
Theorem updateAllFacetedMetrics_evicts_then_refetches
    (env : Env) (st : State) :
  let st' := updateAllFacetedMetrics env st in
  (∀ k, metricsMap st' !! k
        = match metricsMap st !! k with
          | Some row => if has_facets row then None else Some row
          | None => None
          end)
  ∧ map_Forall (λ _ row, facets row = None) (metricsMap st')
  ∧ (selectedFacets st = [] →
     awaiting st' = awaiting st ∧ issued st' = issued st
     ∧ pendingCalls st' = pendingCalls st)
  ∧ (selectedFacets st ≠ [] →
     awaiting st'
     = awaiting st
       ++ facet_calls env SELECTION (selectedInputData env) (selectedFacets st)
       ++ facet_calls env DATASET (currentInputData env) (selectedFacets st)).
Proof.
  intros st'.
  assert (∀ k, metricsMap st' !! k = unless has_facets (metricsMap st !! k))
    as Hlook.
  { intros k. unfold st', updateAllFacetedMetrics.
    destruct (0 <? length _)%nat.
    - do 2 through_updateFacetedMetrics. apply evict_lookup.
    - apply evict_lookup. }
  split; [done|]. split; [|split].
  - intros k row E. rewrite Hlook in E.
    destruct (metricsMap st !! k) as [row0|]; [|done]. simpl in E.
    unfold has_facets in E. destruct (facets row0) eqn:F; [done|].
    by injection E as <-.
  - intros E. unfold st', updateAllFacetedMetrics. simpl. by rewrite E.
  - intros Hne. unfold st', updateAllFacetedMetrics.
    destruct (selectedFacets st) as [|f fs] eqn:E; [done|].
    simpl selectedFacets. rewrite E.
    change (0 <? length (f :: fs))%nat with true. cbv iota.
    set (st1 := with_metricsMap (evict has_facets (metricsMap st)) st).
    set (st2 := updateFacetedMetrics env (selectedInputData env) true st1).
    assert (selectedFacets st1 = f :: fs) as E1 by done.
    assert (selectedFacets st2 = f :: fs) as E2.
    { unfold st2.
      destruct (updateFacetedMetrics_keeps env (selectedInputData env) true st1)
        as (_ & -> & _). done. }
    rewrite updateFacetedMetrics_awaiting by by rewrite E2.
    unfold st2 at 1.
    rewrite updateFacetedMetrics_awaiting by by rewrite E1.
    rewrite E1, E2. by rewrite <- app_assoc.
Qed.

Lemma updateAllFacetedMetrics_evicts_then_refetches_witness :
  (awaiting (updateAllFacetedMetrics sample_env
               (with_selectedFacets [] faceted_state)) = []
   ∧ issued (updateAllFacetedMetrics sample_env
               (with_selectedFacets [] faceted_state)) = []
   ∧ pendingCalls (updateAllFacetedMetrics sample_env
                     (with_selectedFacets [] faceted_state)) = 0)
  ∧ awaiting (updateAllFacetedMetrics sample_env faceted_state)
    = awaiting faceted_state
      ++ facet_calls sample_env SELECTION (selectedInputData sample_env)
           (selectedFacets faceted_state)
      ++ facet_calls sample_env DATASET (currentInputData sample_env)
           (selectedFacets faceted_state).
Proof.
  split.
  - apply (updateAllFacetedMetrics_evicts_then_refetches sample_env
             (with_selectedFacets [] faceted_state)).
    reflexivity.
  - apply (updateAllFacetedMetrics_evicts_then_refetches sample_env
             faceted_state).
    discriminate.
Defined.

(** ** The table projection *)

Lemma split_from_nil (cur : string) : split_from "" cur = [cur].
Proof. reflexivity. Qed.

Lemma split_from_last (a : ascii) (cur : string) :
  split_from (String a "") cur = [cur +:+ String a ""].
Proof. reflexivity. Qed.

Lemma split_from_cons (a b : ascii) (rest cur : string) :
  split_from (String a (String b rest)) cur
  = if Ascii.eqb a ":" && Ascii.eqb b " " then cur :: split_from rest ""
    else split_from (String b rest) (cur +:+ String a "").
Proof. reflexivity. Qed.

Lemma has_colon_space_cons (a b : ascii) (rest : string) :
  has_colon_space (String a (String b rest))
  = (Ascii.eqb a ":" && Ascii.eqb b " ") || has_colon_space (String b rest).
Proof. reflexivity. Qed.

Lemma app_snoc_cons (cur : string) (a : ascii) (s : string) :
  (cur +:+ String a "") +:+ s = cur +:+ String a s.
Proof. by rewrite StrFacts.app_assoc. Qed.

(** A string without the separator is one piece. *)
Lemma split_from_free (s cur : string) :
  has_colon_space s = false → split_from s cur = [cur +:+ s].
Proof.
  revert cur. induction s as [|a s IH]; intros cur H.
  - by rewrite split_from_nil, StrFacts.app_nil_r.
  - destruct s as [|b s]; [done|].
    rewrite has_colon_space_cons in H.
    apply orb_false_iff in H as [Hab Hs].
    rewrite split_from_cons, Hab, (IH _ Hs). by rewrite app_snoc_cons.
Qed.

(** The column identifier of two names without the separator splits back
    into the two names. *)
Lemma split_from_column (g m cur : string) :
  has_colon_space g = false → has_colon_space m = false →
  split_from (g +:+ ": " +:+ m) cur = [cur +:+ g; m].
Proof.
  intros Hg Hm. revert cur Hg. induction g as [|a g IH]; intros cur Hg.
  - rewrite StrFacts.app_nil_l, StrFacts.app_nil_r.
    change (": " +:+ m) with (String ":" (String " " m)).
    rewrite split_from_cons. simpl. by rewrite (split_from_free m "" Hm).
  - rewrite StrFacts.app_cons. destruct g as [|b g].
    + rewrite StrFacts.app_nil_l.
      change (": " +:+ m) with (String ":" (String " " m)).
      rewrite split_from_cons.
      replace (Ascii.eqb a ":" && Ascii.eqb ":" " ") with false
        by by rewrite andb_false_r.
      specialize (IH (cur +:+ String a "") eq_refl).
      rewrite StrFacts.app_nil_l in IH.
      change (": " +:+ m) with (String ":" (String " " m)) in IH.
      rewrite IH. by rewrite StrFacts.app_nil_r.
    + rewrite has_colon_space_cons in Hg.
      apply orb_false_iff in Hg as [Hab Hg].
      rewrite StrFacts.app_cons, split_from_cons, Hab.
      rewrite <- StrFacts.app_cons, (IH _ Hg). by rewrite app_snoc_cons.
Qed.

Lemma split_metric_column (g m : string) :
  has_colon_space g = false → has_colon_space m = false →
  split_colon_space (metric_column g m) = [g; m].
Proof.
  intros Hg Hm. unfold split_colon_space, metric_column.
  by rewrite split_from_column.
Qed.

(** *** Numbers printed by [toFixed3] *)

Lemma digits2_pos_bound (m : positive) : Z.pos m < 2 ^ Z.pos (digits2_pos m).
Proof.
  induction m as [m IH|m IH|]; simpl digits2_pos; [| |done].
  - rewrite Pos2Z.inj_succ, Z.pow_succ_r by lia. lia.
  - rewrite Pos2Z.inj_succ, Z.pow_succ_r by lia. lia.
Qed.

(** A binary64 value with a fractional part is below [2^53], so [toFixed]
    never defers to [Number::toString] for it. *)
Lemma fractional_double_below_1e21 (s : bool) (m : positive) (e : Z) :
  is_double (S754_finite s m e) = true →
  rem1_nonzero (S754_finite s m e) = true →
  ge_1e21 m e = false.
Proof.
  unfold is_double, valid_binary, bounded, canonical_mantissa, fexp, emin.
  unfold rem1_nonzero, ge_1e21.
  intros [Hc _]%andb_true_iff Hr.
  destruct (0 <=? e) eqn:He; [done|].
  apply Z.leb_gt in He. apply Z.eqb_eq in Hc.
  apply Z.leb_gt.
  rewrite (Z.max_l (- e) 0), (Z.max_r e 0) by lia.
  assert (Z.pos (digits2_pos m) <= 53) as Hd by lia.
  pose proof (digits2_pos_bound m) as Hm.
  assert (2 ^ Z.pos (digits2_pos m) <= 2 ^ 53) as Hp
    by (apply Z.pow_le_mono_r; lia).
  assert (1 <= 2 ^ (- e)) as H1.
  { change 1 with (2 ^ 0). apply Z.pow_le_mono_r; lia. }
  assert (2 ^ 53 < 10 ^ 21) as Hlt by done.
  change (2 ^ 0) with 1. nia.
Qed.

Lemma digit_char_is_digit (d : Z) :
  0 <= d < 10 → is_digit (digit_char d) = true.
Proof.
  intros Hd.
  assert (d = 0 ∨ d = 1 ∨ d = 2 ∨ d = 3 ∨ d = 4 ∨ d = 5 ∨ d = 6 ∨ d = 7
          ∨ d = 8 ∨ d = 9) as Hcases by lia.
  repeat (destruct Hcases as [->|Hcases]; [reflexivity|]).
  by subst.
Qed.

Lemma all_digits_cons (c : ascii) (s : string) :
  all_digits (String c s) = is_digit c && all_digits s.
Proof. reflexivity. Qed.

Lemma all_digits_app (s t : string) :
  all_digits (s +:+ t) = all_digits s && all_digits t.
Proof.
  induction s as [|c s IH]; [done|].
  rewrite StrFacts.app_cons. simpl. by rewrite IH, andb_assoc.
Qed.

Lemma all_digits_zeros (k : nat) : all_digits (zeros k) = true.
Proof. induction k as [|k IH]; [done|]. simpl. by rewrite IH. Qed.

Lemma all_digits_digits_fuel (fuel : nat) (n : Z) (acc : string) :
  all_digits acc = true → all_digits (digits_fuel fuel n acc) = true.
Proof.
  revert n acc. induction fuel as [|fuel IH]; intros n acc Hacc; [done|].
  simpl. destruct (n <=? 0); [done|].
  apply IH. rewrite all_digits_cons, Hacc, digit_char_is_digit; [done|].
  apply Z.mod_pos_bound. lia.
Qed.

Lemma all_digits_decimal (n : Z) : all_digits (decimal n) = true.
Proof.
  unfold decimal. destruct (n =? 0); [done|].
  by apply all_digits_digits_fuel.
Qed.

Lemma all_digits_substring (n m : nat) (s : string) :
  all_digits s = true → all_digits (substring n m s) = true.
Proof.
  revert n m. induction s as [|c s IH]; intros n m Hs.
  - by destruct n, m.
  - simpl in Hs. apply andb_true_iff in Hs as [Hc Hs].
    destruct n as [|n]; [destruct m as [|m]; [done|]|]; simpl.
    + by rewrite Hc, IH.
    + by apply IH.
Qed.

Lemma length_string_app (s t : string) :
  String.length (s +:+ t) = (String.length s + String.length t)%nat.
Proof.
  induction s as [|c s IH]; [done|].
  rewrite StrFacts.app_cons. simpl. by rewrite IH.
Qed.

Lemma length_zeros (k : nat) : String.length (zeros k) = k.
Proof. induction k as [|k IH]; [done|]. simpl. by rewrite IH. Qed.

Lemma length_substring (n m : nat) (s : string) :
  (n + m <= String.length s)%nat → String.length (substring n m s) = m.
Proof.
  revert n m. induction s as [|c s IH]; intros n m H; simpl in H.
  - destruct n, m; simpl; lia.
  - destruct n as [|n]; [destruct m as [|m]; [done|]|]; simpl.
    + rewrite IH; [done | simpl; lia].
    + apply IH. lia.
Qed.

Lemma length_digits_fuel (fuel : nat) (n : Z) (acc : string) :
  (String.length acc <= String.length (digits_fuel fuel n acc))%nat.
Proof.
  revert n acc. induction fuel as [|fuel IH]; intros n acc; [done|].
  simpl. destruct (n <=? 0); [done|].
  etrans; [|apply IH]. simpl. lia.
Qed.

Lemma length_decimal (n : Z) : 0 <= n → (1 <= String.length (decimal n))%nat.
Proof.
  intros Hn. unfold decimal. destruct (n =? 0) eqn:E; [done|].
  apply Z.eqb_neq in E. simpl.
  destruct (n <=? 0) eqn:E'; [apply Z.leb_le in E'; lia|].
  etrans; [|apply length_digits_fuel]. simpl. lia.
Qed.

Lemma nearest_thousandth_nonneg (m : positive) (e : Z) :
  0 <= nearest_thousandth m e.
Proof.
  unfold nearest_thousandth.
  assert (0 < 2 ^ Z.max e 0) by (apply Z.pow_pos_nonneg; lia).
  assert (0 < 2 ^ Z.max (- e) 0) by (apply Z.pow_pos_nonneg; lia).
  apply Z.div_pos; nia.
Qed.

Lemma digit_char_value (d : Z) :
  0 <= d < 10 → Z.of_nat (nat_of_ascii (digit_char d)) - 48 = d.
Proof.
  intros Hd.
  assert (d = 0 ∨ d = 1 ∨ d = 2 ∨ d = 3 ∨ d = 4 ∨ d = 5 ∨ d = 6 ∨ d = 7
          ∨ d = 8 ∨ d = 9) as Hcases by lia.
  repeat (destruct Hcases as [->|Hcases]; [reflexivity|]).
  by subst.
Qed.

Lemma digits_value_from_cons (c : ascii) (s : string) (acc : Z) :
  digits_value_from (String c s) acc
  = digits_value_from s (10 * acc + (Z.of_nat (nat_of_ascii c) - 48)).
Proof. reflexivity. Qed.

(** With enough fuel, [digits_fuel] puts the digits of [n] before [acc]. *)
Lemma digits_fuel_value (fuel : nat) (n : Z) (acc : string) :
  0 <= n < 2 ^ Z.of_nat fuel →
  digits_value_from (digits_fuel fuel n acc) 0 = digits_value_from acc n.
Proof.
  revert n acc. induction fuel as [|fuel IH]; intros n acc Hn.
  - simpl in *. by replace n with 0 by lia.
  - simpl digits_fuel. destruct (n <=? 0) eqn:E.
    + apply Z.leb_le in E. by replace n with 0 by lia.
    + apply Z.leb_gt in E.
      rewrite Nat2Z.inj_succ, Z.pow_succ_r in Hn by lia.
      pose proof (Z.div_mod n 10 ltac:(lia)) as Hdm.
      pose proof (Z.mod_pos_bound n 10 ltac:(lia)) as Hmod.
      rewrite IH.
      * rewrite digits_value_from_cons, digit_char_value by done.
        f_equal. lia.
      * split; [apply Z.div_pos; lia|].
        apply Z.div_lt_upper_bound; lia.
Qed.

(** The fuel of [decimal] is enough: the digits denote [n]. *)
Lemma decimal_value (n : Z) : 0 <= n → digits_value (decimal n) = n.
Proof.
  intros Hn. unfold decimal, digits_value.
  destruct (n =? 0) eqn:E; [by apply Z.eqb_eq in E as ->|].
  apply Z.eqb_neq in E. rewrite digits_fuel_value; [done|].
  split; [done|].
  rewrite Nat2Z.inj_succ, Z2Nat.id by apply Z.log2_nonneg.
  apply Z.log2_spec. lia.
Qed.

(** [nearest_thousandth m e] is the integer nearest to [1000 * m * 2^e],
    the larger one on a tie: with [num / den = 1000 * m * 2^e], twice the
    distance of [n * den] to [num] is at most [den], and less on the left. *)
Lemma nearest_thousandth_spec (m : positive) (e : Z) :
  let num := Z.pos m * 1000 * 2 ^ Z.max e 0 in
  let den := 2 ^ Z.max (- e) 0 in
  let n := nearest_thousandth m e in
  0 < den ∧ - den < 2 * (n * den - num) <= den.
Proof.
  intros num den n.
  assert (0 < den) as Hden by (apply Z.pow_pos_nonneg; lia).
  split; [done|].
  pose proof (Z.div_mod (2 * num + den) (2 * den) ltac:(lia)) as Hdm.
  pose proof (Z.mod_pos_bound (2 * num + den) (2 * den) ltac:(lia)) as Hmod.
  unfold n, nearest_thousandth. fold num den. nia.
Qed.

(** A finite number below [10^21] is printed with an optional sign, an
    integral part and exactly three decimals. *)
Lemma toFixed3_three_decimals (Number_toString : number → string)
    (s : bool) (m : positive) (e : Z) :
  ge_1e21 m e = false →
  three_decimals (toFixed3 Number_toString (S754_finite s m e)).
Proof.
  intros Hge. unfold toFixed3. rewrite Hge.
  set (m0 := decimal (nearest_thousandth m e)).
  set (m1 := if (String.length m0 <=? 3)%nat
             then zeros (3 + 1 - String.length m0) +:+ m0 else m0).
  assert (1 <= String.length m0)%nat as H0
    by apply length_decimal, nearest_thousandth_nonneg.
  assert (all_digits m1 = true) as Hd.
  { unfold m1. destruct (String.length m0 <=? 3)%nat.
    - rewrite all_digits_app, all_digits_zeros. apply all_digits_decimal.
    - apply all_digits_decimal. }
  assert (4 <= String.length m1)%nat as H1.
  { unfold m1. destruct (String.length m0 <=? 3)%nat eqn:E.
    - apply Nat.leb_le in E. rewrite length_string_app, length_zeros. lia.
    - apply Nat.leb_gt in E. lia. }
  exists (if s then "-" else ""),
         (substring 0 (String.length m1 - 3) m1),
         (substring (String.length m1 - 3) 3 m1).
  split; [done|]. split; [destruct s; auto|].
  split.
  { intros E. apply (f_equal String.length) in E.
    rewrite length_substring in E by lia. simpl in E. lia. }
  split; [by apply all_digits_substring|].
  split; [by apply all_digits_substring|].
  apply length_substring. lia.
Qed.

Lemma substring_all (s : string) : substring 0 (String.length s) s = s.
Proof. induction s as [|c s IH]; [done|]. simpl. by rewrite IH. Qed.

Lemma substring_split (k : nat) (s : string) :
  (k <= String.length s)%nat →
  substring 0 k s +:+ substring k (String.length s - k) s = s.
Proof.
  revert k. induction s as [|c s IH]; intros k Hk; simpl in Hk.
  - by replace k with 0%nat by lia.
  - destruct k as [|k].
    + rewrite Nat.sub_0_r, substring_all. done.
    + simpl. rewrite StrFacts.app_cons, IH by lia. done.
Qed.

Lemma digits_value_zeros (k : nat) (s : string) :
  digits_value (zeros k +:+ s) = digits_value s.
Proof.
  unfold digits_value. induction k as [|k IH]; [done|].
  simpl zeros. rewrite StrFacts.app_cons, digits_value_from_cons. exact IH.
Qed.

(** The digits printed by [toFixed3], without the point, denote the
    nearest thousandth. *)
Lemma toFixed3_value (Number_toString : number → string)
    (s : bool) (m : positive) (e : Z) :
  ge_1e21 m e = false →
  ∃ a b : string,
    toFixed3 Number_toString (S754_finite s m e)
    = (if s then "-" else "") +:+ a +:+ "." +:+ b
    ∧ String.length b = 3%nat
    ∧ digits_value (a +:+ b) = nearest_thousandth m e.
Proof.
  intros Hge. unfold toFixed3. rewrite Hge.
  set (m0 := decimal (nearest_thousandth m e)).
  set (m1 := if (String.length m0 <=? 3)%nat
             then zeros (3 + 1 - String.length m0) +:+ m0 else m0).
  assert (1 <= String.length m0)%nat as H0
    by apply length_decimal, nearest_thousandth_nonneg.
  assert (digits_value m1 = nearest_thousandth m e) as Hv.
  { unfold m1. destruct (String.length m0 <=? 3)%nat.
    - rewrite digits_value_zeros. apply decimal_value, nearest_thousandth_nonneg.
    - apply decimal_value, nearest_thousandth_nonneg. }
  assert (4 <= String.length m1)%nat as H1.
  { unfold m1. destruct (String.length m0 <=? 3)%nat eqn:E.
    - apply Nat.leb_le in E. rewrite length_string_app, length_zeros. lia.
    - apply Nat.leb_gt in E. lia. }
  pose proof (substring_split (String.length m1 - 3) m1 ltac:(lia)) as Hs.
  replace (String.length m1 - (String.length m1 - 3))%nat with 3%nat in Hs
    by lia.
  eexists _, _. split; [done|]. split; [apply length_substring; lia|].
  by rewrite Hs.
Qed.

(** The cell of row [i] in metric column [j] is [metric_cell] of that row
    and column identifier. *)
Lemma tableData_metric_cell (Number_toString : number → string)
    (inherited : list string → Inherited) (st : State)
    (i j : nat) (row : MetricsRow) (key : string) :
  (map_to_list (metricsMap st)).*2 !! i = Some row →
  metricNames_of (metricsMap st) !! j = Some key →
  ∃ cells,
    table_data (tableData Number_toString inherited st) !! i = Some cells
    ∧ cells !! (5 + length (selectedFacets st) + j)%nat
      = Some (metric_cell Number_toString inherited row key).
Proof.
  intros Hrow Hkey. unfold tableData.
  set (names := metricNames_of (metricsMap st)) in *.
  set (fnames := selectedFacets st).
  simpl table_data.
  rewrite list_lookup_imap, Hrow. simpl. eexists. split; [done|].
  unfold table_row.
  rewrite lookup_app_r by (simpl; lia).
  rewrite lookup_app_r by (rewrite length_map; simpl; lia).
  rewrite length_map. simpl length.
  match goal with
  | |- _ !! ?n = _ => replace n with j by (simpl; lia)
  end.
  change (map (metric_cell Number_toString inherited row) names)
    with (metric_cell Number_toString inherited row <$> names).
  by rewrite list_lookup_fmap, Hkey.
Qed.

Lemma metric_cell_column (Number_toString : number → string)
    (inherited : list string → Inherited)
    (row : MetricsRow) (g mname : string) :
  has_colon_space g = false → has_colon_space mname = false →
  metric_cell Number_toString inherited row (metric_column g mname)
  = match headMetrics row !! g with
    | Some metricsValues =>
        match metricsValues !! mname with
        | Some num => number_cell Number_toString num
        | None => inherited_cell Number_toString inherited [mname]
        end
    | None =>
        match inherited [g] with
        | Nullish => CellString "-"
        | ReadThrows => CellThrows
        | InheritedNumber _ | InheritedOther _ =>
            inherited_cell Number_toString inherited [g; mname]
        end
    end.
Proof.
  intros Hg Hm. unfold metric_cell. by rewrite split_metric_column.
Qed.

(** C8, as stated, fails, in two ways.  The column identifier is split at
    the first two occurrences of [": "], so for the generator
    [bleu: corpus] the cell of its metric [score] reads the generator
    [bleu], which the row lacks, and shows ['-'] although the row holds the
    value 0.5.  And a name that the row lacks is looked up in what plain
    objects inherit: under the column [toString: length] the dataset row,
    which has no generator [toString], shows the [length] of the inherited
    method, the number 0, and not ['-']. *)
Lemma colon_in_generator_hides_metric :
  ((map_to_list (metricsMap colon_state)).*2 = [colon_row]
   ∧ metricNames_of (metricsMap colon_state)
     = [metric_column "bleu: corpus" "score"]
   ∧ headMetrics colon_row !! "bleu: corpus" = Some {[ "score" := num_0_5 ]}
   ∧ ({[ "score" := num_0_5 ]} : gmap string number) !! "score" = Some num_0_5
   ∧ table_data (tableData toString_nonfinite sample_inherited colon_state)
     = [[CellLength 0; CellString "t5"; CellString "dataset";
         CellString "output"; CellLength 2; CellString "-"]])
  ∧ ((map_to_list (metricsMap inherited_state)).*2 !! 0%nat = Some dataset_row
     ∧ metricNames_of (metricsMap inherited_state) !! 1%nat
       = Some (metric_column "toString" "length")
     ∧ headMetrics dataset_row !! "toString" = None
     ∧ table_data (tableData toString_nonfinite sample_inherited inherited_state)
         !! 0%nat
       = Some [CellLength 0; CellString "sst2"; CellString "dataset";
               CellString "label"; CellLength 2; CellString "0.500";
               CellNumber (S754_zero false)]).
Proof. repeat split; vm_compute; reflexivity. Qed.

(** C8 (amended): for every row and every metric column whose generator
    name and metric name do not contain [": "]: if the row has that
    generator and that metric name, the cell is the number itself when
    [x % 1] is zero, and else [x.toFixed(3)], which for a finite binary64
    value has exactly three decimals; if the row lacks the generator, or
    has it without the metric name, the cell is ['-'], provided the missing
    name is not the name of something that plain objects inherit.  The
    value 0.5 renders as ["0.500"] and the value 4 as the number 4. *)
Theorem tableData_metric_cell_value (Number_toString : number → string)
    (inherited : list string → Inherited)
    (st : State) (i j : nat) (row : MetricsRow) (g mname : string) :
  (map_to_list (metricsMap st)).*2 !! i = Some row →
  metricNames_of (metricsMap st) !! j = Some (metric_column g mname) →
  has_colon_space g = false → has_colon_space mname = false →
  (∃ cells cell,
     table_data (tableData Number_toString inherited st) !! i = Some cells
     ∧ cells !! (5 + length (selectedFacets st) + j)%nat = Some cell
     ∧ match headMetrics row !! g with
       | None => inherited [g] = Nullish → cell = CellString "-"
       | Some metricsValues =>
           match metricsValues !! mname with
           | None => inherited [mname] = Nullish → cell = CellString "-"
           | Some num =>
               if rem1_nonzero num then
                 cell = CellString (toFixed3 Number_toString num)
                 ∧ (is_double num = true → is_finite num = true →
                    three_decimals (toFixed3 Number_toString num))
               else cell = CellNumber num
           end
       end)
  ∧ metric_cell Number_toString inherited two_generator_row
      (metric_column "classification" "accuracy") = CellString "0.500"
  ∧ metric_cell Number_toString inherited two_generator_row
      (metric_column "counts" "n") = CellNumber num_4.
Proof.
  intros Hrow Hkey Hg Hm. split; [|by split].
  destruct (tableData_metric_cell Number_toString inherited st i j row _
              Hrow Hkey) as (cells & Hcells & Hcell).
  exists cells,
    (metric_cell Number_toString inherited row (metric_column g mname)).
  split; [done|]. split; [done|].
  rewrite metric_cell_column by done.
  destruct (headMetrics row !! g) as [metricsValues|]; [|by intros ->].
  destruct (metricsValues !! mname) as [num|].
  - unfold number_cell. destruct (rem1_nonzero num) eqn:Hr; [|done].
    split; [done|]. intros Hd Hf.
    destruct num as [s|s| |s m e]; try done.
    apply toFixed3_three_decimals.
    by apply (fractional_double_below_1e21 s).
  - unfold inherited_cell. by intros ->.
Qed.

Lemma tableData_metric_cell_value_witness :
  ((∃ cells cell,
      table_data (tableData toString_nonfinite sample_inherited
                    two_generator_state) !! 0%nat
      = Some cells
      ∧ cells !! (5 + length (selectedFacets two_generator_state) + 1)%nat
        = Some cell
      ∧ cell = CellString (toFixed3 toString_nonfinite num_0_5)
      ∧ (is_double num_0_5 = true → is_finite num_0_5 = true →
         three_decimals (toFixed3 toString_nonfinite num_0_5)))
   ∧ metric_cell toString_nonfinite sample_inherited two_generator_row
       (metric_column "classification" "accuracy") = CellString "0.500"
   ∧ metric_cell toString_nonfinite sample_inherited two_generator_row
       (metric_column "counts" "n") = CellNumber num_4)
  ∧ (∃ cells cell,
       table_data (tableData toString_nonfinite sample_inherited mixed_state)
         !! 0%nat
       = Some cells
       ∧ cells !! (5 + length (selectedFacets mixed_state) + 1)%nat = Some cell
       ∧ (sample_inherited ["classification"] = Nullish →
          cell = CellString "-")).
Proof.
  split.
  - apply (tableData_metric_cell_value toString_nonfinite sample_inherited
             two_generator_state 0 1 two_generator_row
             "classification" "accuracy").
    + vm_compute. reflexivity.
    + vm_compute. reflexivity.
    + reflexivity.
    + reflexivity.
  - apply (tableData_metric_cell_value toString_nonfinite sample_inherited
             mixed_state 0 1 regression_row "classification" "accuracy").
    + vm_compute. reflexivity.
    + vm_compute. reflexivity.
    + reflexivity.
    + reflexivity.
Defined.

(** ** Runs on the sample data *)

(** With no datapoints and at least one model, the continuation meets an
    [undefined] result and throws; the store is as before. *)
Lemma addMetrics_empty_throws (c : Call) (st : State) (model_i : string)
    (models : list string) (l : list (option ModelMetrics)) :
  call_models c = model_i :: models → call_datapoints c = [] →
  can_settle c (Fulfilled l) = true →
  (addMetrics_resume c (Fulfilled l) st).2 = Threw_TypeError
  ∧ metricsMap (addMetrics_resume c (Fulfilled l) st).1 = metricsMap st.
Proof.
  intros Hm Hd Hs. unfold can_settle in Hs. rewrite Hm, Hd in Hs.
  apply andb_true_iff in Hs as [Hlen Hall].
  destruct l as [|o l]; [done|]. simpl in Hall.
  destruct o as [resp|]; [done|].
  unfold addMetrics_resume. rewrite Hm. done.
Qed.

(** The dataset of two examples, one model, and a response that carries the
    accuracy 0.5 for the field [label]: the store gets the dataset row, and
    the table shows ["0.500"] in the column [classification: accuracy]. *)
Example dataset_scenario :
  ∃ st1 st2,
    handle sample_env FirstUpdated initial = Some st1
    ∧ pendingCalls st1 = 1
    ∧ length (issued st1) = 1%nat
    ∧ handle sample_env
        (Settle 0 (Fulfilled [Some [("classification", [accuracy_response])]]))
        st1 = Some st2
    ∧ pendingCalls st2 = 0
    ∧ metricsMap st2 = dataset_store
    ∧ tableData toString_nonfinite sample_inherited st2
      = {| header := ["id"; "Model"; "From"; "Field"; "N";
                      "classification: accuracy"];
           table_data :=
             [[CellLength 0; CellString "sst2"; CellString "dataset";
               CellString "label"; CellLength 2; CellString "0.500"]] |}.
Proof.
  do 2 eexists. split; [reflexivity|]. split; [reflexivity|].
  split; [reflexivity|]. split; [reflexivity|]. split; [reflexivity|].
  split; [vm_compute; reflexivity|]. vm_compute. reflexivity.
Qed.

(** The selection becomes empty: its rows are purged and nothing is
    fetched. *)
Example empty_selection_scenario :
  metricsMap (on_selection sample_env faceted_state) = ∅
  ∧ issued (on_selection sample_env faceted_state) = []
  ∧ awaiting (on_selection sample_env faceted_state) = [].
Proof. repeat split; vm_compute; reflexivity. Qed.

(** * Further properties *)

(** ** The continuation as a sequence of upserts *)

Lemma fold_left_preserves {A B : Type} (f : A → B → A) (P : A → Prop) :
  (∀ a b, P a → P (f a b)) → ∀ l a, P a → P (fold_left f l a).
Proof.
  intros Hf l. induction l as [|b l IH]; intros a Ha; [done|].
  simpl. by apply IH, Hf.
Qed.

Section Continuation.

Variables (name : string) (datapoints : list IndexedInput.t) (src : Source)
          (facetMap : option FacetMap).

(** One upsert of the continuation. *)
Let upsert_one (acc : gmap string MetricsRow)
    (t : string * string * MetricsResponse) : gmap string MetricsRow :=
  upsert t.1.1 name datapoints src facetMap t.1.2 t.2 acc.

Lemma add_returned_fold (model_i : string) (returnedMetrics : ModelMetrics)
    (m : gmap string MetricsRow) :
  add_returned model_i name datapoints src facetMap returnedMetrics m
  = fold_left upsert_one
      (flat_map (λ entry : string * list MetricsResponse,
                   map (λ resp, (model_i, entry.1, resp)) entry.2)
                returnedMetrics)
      m.
Proof.
  unfold add_returned. revert m.
  induction returnedMetrics as [|[metricsType resps] l IH]; intros m; [done|].
  simpl. rewrite fold_left_app, <- IH. f_equal. clear.
  revert m. induction resps as [|resp resps IH]; intros m; [done|].
  simpl. by rewrite IH.
Qed.

Lemma forEach_datasetMetrics_fold
    (l : list (string * option ModelMetrics)) (m : gmap string MetricsRow) :
  (forEach_datasetMetrics name datapoints src facetMap l m).1
  = fold_left upsert_one (upserts_of l) m.
Proof.
  revert m. induction l as [|[model_i [ret|]] l IH]; intros m; [done| |done].
  simpl. by rewrite fold_left_app, IH, add_returned_fold.
Qed.

Lemma forEach_datasetMetrics_returns
    (l : list (string * option ModelMetrics)) (m : gmap string MetricsRow) :
  Forall (λ p : string * option ModelMetrics, is_Some p.2) l →
  (forEach_datasetMetrics name datapoints src facetMap l m).2 = Returned.
Proof.
  intros Hl. revert m.
  induction Hl as [|[model_i [ret|]] l [? Hx] Hl IH]; intros m; try done.
  simpl. apply IH.
Qed.

End Continuation.

Lemma addMetrics_resume_metricsMap (c : Call) (r : Settled) (st : State) :
  metricsMap (addMetrics_resume c r st).1
  = fold_left
      (λ acc (t : string * string * MetricsResponse),
         upsert t.1.1
           (display_name (call_source c) (call_facetMap c) (call_displayName c))
           (call_datapoints c) (call_source c) (call_facetMap c) t.1.2 t.2 acc)
      (upserts_of (combine (call_models c) (results_of r)))
      (metricsMap st).
Proof.
  rewrite <- forEach_datasetMetrics_fold. unfold addMetrics_resume.
  destruct r as [l|]; simpl;
    match goal with
    | |- context [forEach_datasetMetrics ?a ?b ?c ?d ?e ?f] =>
        destruct (forEach_datasetMetrics a b c d e f)
    end; done.
Qed.

Lemma addMetrics_resume_completion (c : Call) (r : Settled) (st : State) :
  (addMetrics_resume c r st).2
  = (forEach_datasetMetrics
       (display_name (call_source c) (call_facetMap c) (call_displayName c))
       (call_datapoints c) (call_source c) (call_facetMap c)
       (combine (call_models c) (results_of r)) (metricsMap st)).2.
Proof.
  unfold addMetrics_resume.
  destruct r as [l|]; simpl;
    match goal with
    | |- context [forEach_datasetMetrics ?a ?b ?c ?d ?e ?f] =>
        destruct (forEach_datasetMetrics a b c d e f)
    end; done.
Qed.

(** ** Invariants of the runs *)

Section HandlerInvariant.

Variable P : State → Prop.

Hypothesis P_addMetrics :
  ∀ env datapoints src facetMap displayName st,
    call_site src facetMap displayName datapoints →
    P st → P (addMetrics env datapoints src facetMap displayName st).
Hypothesis P_evict :
  ∀ p st, P st → P (with_metricsMap (evict p (metricsMap st)) st).
Hypothesis P_facetBySlice : ∀ b st, P st → P (with_facetBySlice b st).
Hypothesis P_selectedFacets : ∀ l st, P st → P (with_selectedFacets l st).
Hypothesis P_resume :
  ∀ c r i st,
    awaiting st !! i = Some c → can_settle c r = true → P st →
    P (addMetrics_resume c r (with_awaiting (delete i (awaiting st)) st)).1.

Lemma updateFacetedMetrics_invariant (env : Env)
    (datapoints : list IndexedInput.t) (isSelection : bool) (st : State) :
  P st → P (updateFacetedMetrics env datapoints isSelection st).
Proof.
  intros H. unfold updateFacetedMetrics.
  destruct (0 <? length (selectedFacets st))%nat; [|done].
  apply fold_left_preserves; [|done].
  intros st' group H'. apply P_addMetrics; [|done]. by destruct isSelection.
Qed.

Lemma updateAllFacetedMetrics_invariant (env : Env) (st : State) :
  P st → P (updateAllFacetedMetrics env st).
Proof.
  intros H. unfold updateAllFacetedMetrics.
  destruct (0 <? length _)%nat; [|by apply P_evict].
  by do 2 apply updateFacetedMetrics_invariant; apply P_evict.
Qed.

Lemma updateSliceMetrics_invariant (env : Env) (st : State) :
  P st → P (updateSliceMetrics env st).
Proof.
  intros H. unfold updateSliceMetrics.
  destruct (facetBySlice _); [|by apply P_evict].
  apply fold_left_preserves; [|by apply P_evict].
  intros st' name H'.
  destruct (getSliceDataByName env name) as [|x d] eqn:E; [done|].
  apply P_addMetrics; [|done]. by repeat split.
Qed.

Lemma on_dataset_invariant (env : Env) (st : State) :
  P st → P (on_dataset env st).
Proof.
  intros H. apply updateAllFacetedMetrics_invariant. by apply P_addMetrics.
Qed.

Lemma on_selection_invariant (env : Env) (st : State) :
  P st → P (on_selection env st).
Proof.
  intros H. unfold on_selection.
  destruct (0 <? length _)%nat; [|by apply P_evict].
  apply updateFacetedMetrics_invariant, P_addMetrics; [done|].
  by apply P_evict.
Qed.

Lemma handle_invariant (env : Env) (ev : Event) (st st' : State) :
  P st → handle env ev st = Some st' → P st'.
Proof.
  intros H. destruct ev; simpl; try (intros [= <-]).
  - by apply on_dataset_invariant, on_selection_invariant.
  - by apply on_dataset_invariant.
  - by apply on_selection_invariant.
  - by apply on_dataset_invariant.
  - by apply updateSliceMetrics_invariant, P_facetBySlice.
  - by apply updateAllFacetedMetrics_invariant, P_selectedFacets.
  - by apply updateSliceMetrics_invariant, P_facetBySlice.
  - destruct (awaiting st !! i) as [c|] eqn:E; [|done].
    destruct (can_settle c r) eqn:Hr; [|done]. intros [= <-].
    by apply P_resume.
Qed.

Lemma reachable_invariant (st : State) : P initial → reachable st → P st.
Proof.
  intros H0. induction 1 as [|env ev st st' _ IH H]; [done|].
  by apply (handle_invariant env ev st).
Qed.

End HandlerInvariant.

Lemma scenario_reachable : reachable scenario_state.
Proof.
  apply (reachable_handle sample_env
           (Settle 0 (Fulfilled [Some [("classification", [accuracy_response])]]))
           (firstUpdated sample_env initial)); [|reflexivity].
  apply (reachable_handle sample_env FirstUpdated initial); [|reflexivity].
  apply reachable_initial.
Qed.

Lemma first_reachable : reachable (firstUpdated sample_env initial).
Proof.
  apply (reachable_handle sample_env FirstUpdated initial); [|reflexivity].
  apply reachable_initial.
Qed.

Lemma upsert_keyed (model_i name : string) (datapoints : list IndexedInput.t)
    (src : Source) (facetMap : option FacetMap) (metricsType : string)
    (resp : MetricsResponse) (m : gmap string MetricsRow) :
  map_Forall (λ k row, k = key_of row) m →
  map_Forall (λ k row, k = key_of row)
    (upsert model_i name datapoints src facetMap metricsType resp m).
Proof.
  intros Hm k row' E.
  destruct (decide (k = getRowKey model_i name (pred_key resp) facetMap))
    as [->|Hne].
  - destruct (m !! getRowKey model_i name (pred_key resp) facetMap)
      as [row|] eqn:E0.
    + rewrite (upsert_lookup_present _ _ _ _ _ _ _ _ _ E0) in E.
      injection E as <-. apply (Hm _ _ E0).
    + rewrite (upsert_lookup_absent _ _ _ _ _ _ _ _ E0) in E.
      by injection E as <-.
  - rewrite upsert_lookup_ne in E by done. by apply Hm.
Qed.

Lemma evict_subset (p : MetricsRow → bool) (m : gmap string MetricsRow)
    (k : string) (row : MetricsRow) :
  evict p m !! k = Some row → m !! k = Some row.
Proof.
  rewrite evict_lookup. destruct (m !! k) as [row0|]; [|done].
  simpl. by destruct (p row0).
Qed.

(** X1: in every run, each row of the store sits under the key derived
    from its own [model], [selection], [predKey] and [facets]. *)
Theorem reachable_store_keyed (st : State) :
  reachable st → map_Forall (λ k row, k = key_of row) (metricsMap st).
Proof.
  apply (reachable_invariant
           (λ st, map_Forall (λ k row, k = key_of row) (metricsMap st))).
  - done.
  - intros p st0 H k row E. apply evict_subset in E. by apply H.
  - done.
  - done.
  - intros c r i st0 _ _ H. rewrite addMetrics_resume_metricsMap.
    apply (fold_left_preserves _
             (map_Forall (λ k row, k = key_of row))); [|done].
    intros m t. apply upsert_keyed.
  - apply map_Forall_empty.
Qed.

Lemma reachable_store_keyed_witness :
  map_Forall (λ k row, k = key_of row) (metricsMap scenario_state).
Proof.
  apply (reachable_store_keyed scenario_state). apply scenario_reachable.
Defined.

Lemma upsert_row_ok (model_i : string) (datapoints : list IndexedInput.t)
    (src : Source) (facetMap : option FacetMap) (displayName : option string)
    (metricsType : string) (resp : MetricsResponse)
    (m : gmap string MetricsRow) :
  call_site src facetMap displayName datapoints →
  map_Forall (λ _ row, row_ok row) m →
  map_Forall (λ _ row, row_ok row)
    (upsert model_i (display_name src facetMap displayName) datapoints src
            facetMap metricsType resp m).
Proof.
  intros Hc Hm k row' E.
  set (name := display_name src facetMap displayName) in *.
  destruct (decide (k = getRowKey model_i name (pred_key resp) facetMap))
    as [->|Hne].
  - destruct (m !! getRowKey model_i name (pred_key resp) facetMap)
      as [row|] eqn:E0.
    + rewrite (upsert_lookup_present _ _ _ _ _ _ _ _ _ E0) in E.
      injection E as <-. apply (Hm _ _ E0).
    + rewrite (upsert_lookup_absent _ _ _ _ _ _ _ _ E0) in E.
      injection E as <-. unfold row_ok, name. simpl.
      destruct src; simpl in Hc; try by rewrite Hc.
      by destruct Hc.
  - rewrite upsert_lookup_ne in E by done. by apply (Hm k).
Qed.

(** X2: in every run, a row of the dataset or of the selection is labelled
    ["dataset"] or ["selection"], with the suffix [" (faceted)"] exactly
    when it carries facets, and a row of a slice carries no facets; the
    invocations that wait were started with the matching arguments. *)
Theorem reachable_rows_labelled (st : State) :
  reachable st →
  Forall call_ok (awaiting st) ∧ map_Forall (λ _ row, row_ok row) (metricsMap st).
Proof.
  apply (reachable_invariant
           (λ st, Forall call_ok (awaiting st)
                  ∧ map_Forall (λ _ row, row_ok row) (metricsMap st))).
  - intros env datapoints src facetMap displayName st0 Hc [Ha Hm].
    split; [|done]. rewrite addMetrics_awaiting.
    apply Forall_app. split; [done|]. by apply Forall_singleton.
  - intros p st0 [Ha Hm]. split; [done|].
    intros k row E. apply evict_subset in E. by apply (Hm k).
  - done.
  - done.
  - intros c r i st0 Hi _ [Ha Hm].
    assert (call_ok c) as Hc.
    { eapply (Forall_lookup_1 _ _ _ _ Ha Hi). }
    split.
    + destruct (addMetrics_resume_fields c r
                  (with_awaiting (delete i (awaiting st0)) st0))
        as (_ & -> & _).
      simpl. by apply Forall_delete.
    + rewrite addMetrics_resume_metricsMap.
      apply (fold_left_preserves _
               (map_Forall (λ _ row, row_ok row))); [|done].
      intros m t. by apply upsert_row_ok.
  - split; [done|]. apply map_Forall_empty.
Qed.

Lemma reachable_rows_labelled_witness :
  Forall call_ok (awaiting scenario_state)
  ∧ map_Forall (λ _ row, row_ok row) (metricsMap scenario_state).
Proof.
  apply (reachable_rows_labelled scenario_state). apply scenario_reachable.
Defined.

(** X3: in every run, each request sent to the scoring service carries at
    least one example and the request kind ["metrics"]. *)
Theorem reachable_requests_nonempty (st : State) :
  reachable st →
  Forall (λ r, req_inputs r ≠ [] ∧ req_kind r = "metrics") (issued st).
Proof.
  apply (reachable_invariant
           (λ st, Forall (λ r, req_inputs r ≠ [] ∧ req_kind r = "metrics")
                         (issued st))).
  - intros env datapoints src facetMap displayName st0 _ H.
    simpl. apply Forall_app. split; [done|].
    apply Forall_forall. intros r Hr.
    apply list_elem_of_omap in Hr as (model_i & _ & Hr).
    unfold getMetrics in Hr.
    destruct datapoints as [|x d]; [done|]. simpl in Hr.
    by injection Hr as <-.
  - done.
  - done.
  - done.
  - intros c r i st0 _ _ H.
    by destruct (addMetrics_resume_fields c r
                   (with_awaiting (delete i (awaiting st0)) st0))
      as (_ & _ & -> & _).
  - done.
Qed.

Lemma reachable_requests_nonempty_witness :
  Forall (λ r, req_inputs r ≠ [] ∧ req_kind r = "metrics")
         (issued scenario_state).
Proof.
  apply (reachable_requests_nonempty scenario_state). apply scenario_reachable.
Defined.

(** X4: in every run, the spinner is rendered exactly while at least one
    invocation of [addMetrics] waits for its batch. *)
Theorem spinner_iff_awaiting (st : State) :
  reachable st → (spinner_shown st = true ↔ awaiting st ≠ []).
Proof.
  intros Hst. apply reachable_excess in Hst. unfold excess in Hst.
  unfold spinner_shown. rewrite Z.ltb_lt.
  destruct (awaiting st) as [|c l]; simpl in *; split; try done; lia.
Qed.

Lemma spinner_iff_awaiting_witness :
  spinner_shown (firstUpdated sample_env initial) = true
  ↔ awaiting (firstUpdated sample_env initial) ≠ [].
Proof.
  apply (spinner_iff_awaiting (firstUpdated sample_env initial)).
  apply first_reachable.
Defined.

(** ** What a settling batch does to the store *)

Lemma same_identity_trans (r1 r2 r3 : MetricsRow) :
  same_identity r1 r2 → same_identity r2 r3 → same_identity r1 r3.
Proof.
  unfold same_identity. intros (? & ? & ? & ? & ?) (? & ? & ? & ? & ?).
  repeat split; congruence.
Qed.

Lemma upsert_keeps_row (model_i name : string)
    (datapoints : list IndexedInput.t) (src : Source)
    (facetMap : option FacetMap) (metricsType : string)
    (resp : MetricsResponse) (m : gmap string MetricsRow)
    (k : string) (row : MetricsRow) :
  m !! k = Some row →
  ∃ row',
    upsert model_i name datapoints src facetMap metricsType resp m !! k
    = Some row'
    ∧ same_identity row row'.
Proof.
  intros E.
  destruct (decide (k = getRowKey model_i name (pred_key resp) facetMap))
    as [->|Hne].
  - eexists. split; [by apply upsert_lookup_present|]. by repeat split.
  - exists row. rewrite upsert_lookup_ne by done. by repeat split.
Qed.

(** X5: the continuation of an invocation, however its batch settled and
    whether or not it throws, removes no row from the store and changes no
    row's [model], [selection], [predKey], [source] or [facets]. *)
Theorem settle_keeps_rows (c : Call) (r : Settled) (st : State)
    (k : string) (row : MetricsRow) :
  metricsMap st !! k = Some row →
  ∃ row',
    metricsMap (addMetrics_resume c r st).1 !! k = Some row'
    ∧ same_identity row row'.
Proof.
  intros E. rewrite addMetrics_resume_metricsMap.
  apply (fold_left_preserves _
           (λ m, ∃ row', m !! k = Some row' ∧ same_identity row row')).
  - intros m t (row1 & E1 & H1).
    destruct (upsert_keeps_row t.1.1
                (display_name (call_source c) (call_facetMap c)
                              (call_displayName c))
                (call_datapoints c) (call_source c) (call_facetMap c)
                t.1.2 t.2 m k row1 E1) as (row2 & E2 & H2).
    exists row2. split; [done|]. by apply (same_identity_trans _ row1).
  - exists row. by repeat split.
Qed.

Lemma settle_keeps_rows_witness :
  ∃ row',
    metricsMap
      (addMetrics_resume
         {| call_models := ["sst2"]; call_datapoints := one_example;
            call_source := SLICE; call_facetMap := None;
            call_displayName := Some "dataset" |}
         (Fulfilled [Some [("regression", [f1_response])]])
         scenario_state).1 !! "sst2-dataset-label-" = Some row'
    ∧ same_identity dataset_row row'.
Proof.
  apply (settle_keeps_rows _ _ scenario_state "sst2-dataset-label-" dataset_row).
  vm_compute. reflexivity.
Defined.

Lemma fold_left_establishes {A B : Type} (f : A → B → A) (Q : B → A → Prop) :
  (∀ a b, Q b (f a b)) →
  (∀ a b b', Q b a → Q b (f a b')) →
  ∀ l a b, b ∈ l → Q b (fold_left f l a).
Proof.
  intros Hnew Hkeep l. induction l as [|x l IH]; intros a b Hb.
  - by apply elem_of_nil in Hb.
  - simpl. apply elem_of_cons in Hb as [->|Hb].
    + apply (fold_left_preserves f (Q x)); [|apply Hnew].
      intros a' b' H. by apply Hkeep.
    + by apply IH.
Qed.

Lemma combine_lookup {A B : Type} (l1 : list A) (l2 : list B) (i : nat)
    (x : A) (y : B) :
  l1 !! i = Some x → l2 !! i = Some y → combine l1 l2 !! i = Some (x, y).
Proof.
  revert l2 i. induction l1 as [|a l1 IH]; intros [|b l2] [|i] H1 H2;
    simplify_eq/=; [done|]. by apply IH.
Qed.

Lemma elem_of_upserts_of (l : list (string * option ModelMetrics))
    (model_i : string) (returnedMetrics : ModelMetrics) (metricsType : string)
    (entries : list MetricsResponse) (resp : MetricsResponse) :
  Forall (λ p : string * option ModelMetrics, is_Some p.2) l →
  (model_i, Some returnedMetrics) ∈ l →
  (metricsType, entries) ∈ returnedMetrics → resp ∈ entries →
  (model_i, metricsType, resp) ∈ upserts_of l.
Proof.
  intros Hl Hin Hmt Hresp.
  induction Hl as [|[model' [ret|]] l [? Hx] Hl IH]; try done.
  - by apply elem_of_nil in Hin.
  - simpl. apply elem_of_app. apply elem_of_cons in Hin as [[= -> ->]|Hin].
    + left. apply list_elem_of_In, in_flat_map.
      exists (metricsType, entries). split; [by apply list_elem_of_In|].
      apply in_map. by apply list_elem_of_In.
    + right. by apply IH.
Qed.

(** X6: when the batch is fulfilled with a result for every model, the
    continuation returns without throwing, and for every entry of every
    result the store then holds a row under the entry's key whose
    [exampleIds] are the ids of the batch and whose [headMetrics] has the
    entry's generator. *)
Theorem fulfilled_batch_upserted (c : Call) (resps : list ModelMetrics)
    (st : State) :
  let name :=
    display_name (call_source c) (call_facetMap c) (call_displayName c) in
  let res := addMetrics_resume c (Fulfilled (Some <$> resps)) st in
  res.2 = Returned
  ∧ ∀ i model_i returnedMetrics metricsType entries resp,
      call_models c !! i = Some model_i → resps !! i = Some returnedMetrics →
      (metricsType, entries) ∈ returnedMetrics → resp ∈ entries →
      ∃ row,
        metricsMap res.1
          !! getRowKey model_i name (pred_key resp) (call_facetMap c)
        = Some row
        ∧ exampleIds row = ids_of (call_datapoints c)
        ∧ is_Some (headMetrics row !! metricsType).
Proof.
  intros name res.
  assert (Forall (λ p : string * option ModelMetrics, is_Some p.2)
                 (combine (call_models c) (Some <$> resps))) as Hall.
  { apply Forall_forall. intros [model_i o] Hin.
    apply list_elem_of_In, in_combine_r, list_elem_of_In in Hin.
    apply list_elem_of_fmap in Hin as (ret & -> & _). by eexists. }
  split.
  { unfold res. rewrite addMetrics_resume_completion.
    by apply forEach_datasetMetrics_returns. }
  intros i model_i ret metricsType entries resp Hm Hr Hmt Hresp.
  unfold res. rewrite addMetrics_resume_metricsMap.
  refine (fold_left_establishes _
    (λ (t : string * string * MetricsResponse) m,
       ∃ row,
         m !! getRowKey t.1.1 name (pred_key t.2) (call_facetMap c) = Some row
         ∧ exampleIds row = ids_of (call_datapoints c)
         ∧ is_Some (headMetrics row !! t.1.2))
    _ _ _ _ (model_i, metricsType, resp) _).
  - intros m [[model' mt'] resp']. simpl.
    destruct (m !! getRowKey model' name (pred_key resp') (call_facetMap c))
      as [row|] eqn:E.
    + eexists. split; [by apply upsert_lookup_present|]. simpl.
      split; [done|]. rewrite lookup_insert_eq. by eexists.
    + eexists. split; [by apply upsert_lookup_absent|]. simpl.
      split; [done|]. rewrite lookup_singleton_eq. by eexists.
  - intros m [[model1 mt1] resp1] [[model2 mt2] resp2] (row & E & Hids & Hh).
    simpl in *.
    destruct (decide (getRowKey model1 name (pred_key resp1) (call_facetMap c)
                      = getRowKey model2 name (pred_key resp2) (call_facetMap c)))
      as [Heq|Hne].
    + rewrite Heq in *. eexists.
      split; [by apply upsert_lookup_present|]. simpl. split; [done|].
      destruct (decide (mt2 = mt1)) as [->|Hmt'].
      * rewrite lookup_insert_eq. by eexists.
      * by rewrite lookup_insert_ne.
    + exists row. by rewrite upsert_lookup_ne.
  - simpl. apply elem_of_upserts_of with (returnedMetrics := ret)
                                          (entries := entries); try done.
    apply list_elem_of_lookup. exists i. apply combine_lookup; [done|].
    by rewrite list_lookup_fmap, Hr.
Qed.

Lemma fulfilled_batch_upserted_witness :
  ∃ row,
    metricsMap
      (addMetrics_resume
         {| call_models := ["sst2"]; call_datapoints := two_examples;
            call_source := DATASET; call_facetMap := None;
            call_displayName := None |}
         (Fulfilled (Some <$> [[("classification", [accuracy_response])]]))
         initial).1
      !! getRowKey "sst2" (display_name DATASET None None)
                   (pred_key accuracy_response) None
    = Some row
    ∧ exampleIds row = ids_of two_examples
    ∧ is_Some (headMetrics row !! "classification").
Proof.
  apply (proj2 (fulfilled_batch_upserted
           {| call_models := ["sst2"]; call_datapoints := two_examples;
              call_source := DATASET; call_facetMap := None;
              call_displayName := None |}
           [[("classification", [accuracy_response])]] initial)
           0%nat "sst2" [("classification", [accuracy_response])]
           "classification" [accuracy_response] accuracy_response).
  - reflexivity.
  - reflexivity.
  - apply elem_of_cons. left. reflexivity.
  - apply elem_of_cons. left. reflexivity.
Defined.

(** ** What the handlers start *)



Lemma fold_slices_awaiting (env : Env) (names : list string) (st : State) :
  awaiting
    (fold_left
       (λ acc name,
          let d := getSliceDataByName env name in
          if (0 <? length d)%nat then addMetrics env d SLICE None (Some name) acc
          else acc)
       names st)
  = awaiting st
    ++ map (λ name,
              {| call_models := currentModels env;
                 call_datapoints := getSliceDataByName env name;
                 call_source := SLICE; call_facetMap := None;
                 call_displayName := Some name |})
           (filter (λ name, getSliceDataByName env name ≠ []) names).
Proof.
  revert st. induction names as [|name names IH]; intros st.
  - simpl. by rewrite app_nil_r.
  - simpl fold_left. rewrite IH, filter_cons.
    destruct (decide (getSliceDataByName env name ≠ [])) as [Hne|He].
    + destruct (getSliceDataByName env name) as [|x d] eqn:E; [done|].
      change (0 <? length (x :: d))%nat with true. cbv iota.
      rewrite addMetrics_awaiting, <- app_assoc. simpl. by rewrite E.
    + destruct (getSliceDataByName env name) as [|x d] eqn:E; [done|].
      exfalso. by apply He.
Qed.

(** X8: [updateSliceMetrics] removes from the store the rows whose source
    is a slice and no other row; with slice faceting off it starts nothing,
    and with it on it starts one invocation for each slice that has at
    least one example, named after the slice and without facets. *)
Theorem updateSliceMetrics_purges_then_refetches (env : Env) (st : State) :
  let st' := updateSliceMetrics env st in
  (∀ k, metricsMap st' !! k
        = match metricsMap st !! k with
          | Some row => if bool_decide (source row = SLICE) then None else Some row
          | None => None
          end)
  ∧ (facetBySlice st = false →
     awaiting st' = awaiting st ∧ issued st' = issued st
     ∧ pendingCalls st' = pendingCalls st)
  ∧ (facetBySlice st = true → awaiting st' = awaiting st ++ slice_calls env).
Proof.
  intros st'. split; [|split].
  - intros k. unfold st', updateSliceMetrics.
    destruct (facetBySlice _).
    + match goal with
      | |- metricsMap (fold_left ?f ?l ?s) !! _ = _ =>
          destruct (fold_addMetrics_keeps f l) with (st := s) as (-> & _)
      end.
      * intros st0 name. destruct (0 <? length _)%nat; [|done].
        by rewrite addMetrics_excess.
      * apply (evict_lookup is_slice).
    + apply (evict_lookup is_slice).
  - intros E. unfold st', updateSliceMetrics. simpl. by rewrite E.
  - intros E. unfold st', updateSliceMetrics. simpl facetBySlice. rewrite E.
    by rewrite fold_slices_awaiting.
Qed.

Lemma updateSliceMetrics_purges_then_refetches_witness :
  (awaiting (updateSliceMetrics sample_env initial) = awaiting initial
   ∧ issued (updateSliceMetrics sample_env initial) = issued initial
   ∧ pendingCalls (updateSliceMetrics sample_env initial)
     = pendingCalls initial)
  ∧ awaiting (updateSliceMetrics sample_env (with_facetBySlice true initial))
    = awaiting (with_facetBySlice true initial) ++ slice_calls sample_env.
Proof.
  split.
  - apply (updateSliceMetrics_purges_then_refetches sample_env initial).
    reflexivity.
  - apply (updateSliceMetrics_purges_then_refetches sample_env
             (with_facetBySlice true initial)).
    reflexivity.
Defined.

Lemma fold_addMetrics_pendingCalls (env : Env) (src : Source)
    (groups : list (string * FacetedData)) (st : State) :
  pendingCalls
    (fold_left
       (λ acc group,
          addMetrics env (data group.2) src (group_facets group.2) None acc)
       groups st)
  = pendingCalls st + Z.of_nat (length groups).
Proof.
  revert st. induction groups as [|g groups IH]; intros st.
  - simpl. lia.
  - simpl fold_left. rewrite IH, addMetrics_pendingCalls. simpl length. lia.
Qed.

(** X9: [updateFacetedMetrics] never touches the store; with no facet
    dimension selected it does nothing at all, and otherwise it starts one
    invocation of [addMetrics] per group of the grouping service, with the
    group's examples and facets and the source given by [isSelection]. *)
Theorem updateFacetedMetrics_one_call_per_group (env : Env)
    (datapoints : list IndexedInput.t) (isSelection : bool) (st : State) :
  let st' := updateFacetedMetrics env datapoints isSelection st in
  let groups := groupExamplesByFeatures env datapoints (selectedFacets st) in
  metricsMap st' = metricsMap st
  ∧ (selectedFacets st = [] → st' = st)
  ∧ (selectedFacets st ≠ [] →
     awaiting st'
     = awaiting st
       ++ facet_calls env (if isSelection then SELECTION else DATASET)
            datapoints (selectedFacets st)
     ∧ pendingCalls st' = pendingCalls st + Z.of_nat (length groups)).
Proof.
  intros st' groups. split; [|split].
  - apply updateFacetedMetrics_keeps.
  - intros E. unfold st', updateFacetedMetrics. by rewrite E.
  - intros Hne. split; [by apply updateFacetedMetrics_awaiting|].
    unfold st', updateFacetedMetrics.
    destruct (selectedFacets st) as [|f fs] eqn:E; [done|].
    change (0 <? length (f :: fs))%nat with true. cbv iota.
    apply fold_addMetrics_pendingCalls.
Qed.

Lemma updateFacetedMetrics_one_call_per_group_witness :
  updateFacetedMetrics sample_env two_examples true initial = initial
  ∧ (awaiting (updateFacetedMetrics sample_env two_examples true faceted_state)
     = awaiting faceted_state
       ++ facet_calls sample_env SELECTION two_examples
            (selectedFacets faceted_state)
     ∧ pendingCalls
         (updateFacetedMetrics sample_env two_examples true faceted_state)
       = pendingCalls faceted_state
         + Z.of_nat
             (length (groupExamplesByFeatures sample_env two_examples
                        (selectedFacets faceted_state)))).
Proof.
  split.
  - apply (updateFacetedMetrics_one_call_per_group sample_env two_examples
             true initial).
    reflexivity.
  - apply (updateFacetedMetrics_one_call_per_group sample_env two_examples
             true faceted_state).
    discriminate.
Defined.

(** X10: a change of the dataset or of the margin settings removes from
    the store the rows that carry facets and no other row, and starts an
    invocation for the full dataset before any faceted one, also when the
    dataset is empty. *)
Theorem on_dataset_keeps_plain_rows (env : Env) (st : State) :
  (∀ k, metricsMap (on_dataset env st) !! k
        = match metricsMap st !! k with
          | Some row => if has_facets row then None else Some row
          | None => None
          end)
  ∧ ∃ rest,
      awaiting (on_dataset env st)
      = awaiting st
        ++ {| call_models := currentModels env;
              call_datapoints := currentInputData env;
              call_source := DATASET; call_facetMap := None;
              call_displayName := None |} :: rest.
Proof.
  split.
  - intros k. unfold on_dataset, updateAllFacetedMetrics.
    destruct (0 <? length _)%nat.
    + do 2 through_updateFacetedMetrics. apply (evict_lookup has_facets).
    + apply (evict_lookup has_facets).
  - unfold on_dataset, updateAllFacetedMetrics.
    set (st0 := addMetrics env (currentInputData env) DATASET None None st).
    set (st1 := with_metricsMap (evict has_facets (metricsMap st0)) st0).
    assert (awaiting st1
            = awaiting st
              ++ [{| call_models := currentModels env;
                     call_datapoints := currentInputData env;
                     call_source := DATASET; call_facetMap := None;
                     call_displayName := None |}]) as E1 by done.
    destruct (selectedFacets st1) as [|f fs] eqn:E.
    + exists []. change (0 <? length (@nil string))%nat with false.
      cbv iota. exact E1.
    + change (0 <? length (f :: fs))%nat with true. cbv iota.
      set (st2 := updateFacetedMetrics env (selectedInputData env) true st1).
      assert (selectedFacets st2 = f :: fs) as E2.
      { unfold st2.
        by destruct (updateFacetedMetrics_keeps env (selectedInputData env)
                       true st1) as (_ & -> & _). }
      rewrite updateFacetedMetrics_awaiting by by rewrite E2.
      unfold st2 at 1.
      rewrite updateFacetedMetrics_awaiting by by rewrite E.
      rewrite E1, <- !app_assoc. eexists. reflexivity.
Qed.

(** ** The table and its click handler *)

Lemma table_row_length (Number_toString : number → string)
    (inherited : list string → Inherited)
    (facetNames metricNames : list string) (index : nat) (row : MetricsRow) :
  length (table_row Number_toString inherited facetNames metricNames index row)
  = (5 + length facetNames + length metricNames)%nat.
Proof.
  unfold table_row. rewrite !length_app, !length_map. simpl. lia.
Qed.

(** X11: the table has one row per row of the store, and every row of the
    table has as many cells as the header has column names. *)
Theorem tableData_rectangular (Number_toString : number → string)
    (inherited : list string → Inherited) (st : State) :
  length (table_data (tableData Number_toString inherited st)) = size (metricsMap st)
  ∧ Forall (λ cells, length cells = length (header (tableData Number_toString inherited st)))
           (table_data (tableData Number_toString inherited st)).
Proof.
  unfold tableData. simpl header. simpl table_data. split.
  - by rewrite length_imap, length_fmap, length_map_to_list.
  - apply Forall_forall. intros cells Hin.
    apply list_elem_of_lookup in Hin as [i Hi].
    rewrite list_lookup_imap in Hi.
    destruct ((map_to_list (metricsMap st)).*2 !! i) as [row|]; [|done].
    injection Hi as <-. rewrite table_row_length.
    simpl. rewrite !length_app. simpl. lia.
Qed.


(** ** The metric columns *)

Lemma elem_of_Set_add (x y : string) (s : list string) :
  y ∈ Set_add x s ↔ y = x ∨ y ∈ s.
Proof.
  unfold Set_add. case_bool_decide as Hx.
  - split; [by right|]. by intros [->|?].
  - rewrite elem_of_app, list_elem_of_singleton. tauto.
Qed.

Lemma NoDup_Set_add (x : string) (s : list string) :
  NoDup s → NoDup (Set_add x s).
Proof.
  intros Hs. unfold Set_add. case_bool_decide as Hx; [done|].
  apply NoDup_app. split; [done|]. split; [|apply NoDup_singleton].
  intros y Hy ->%list_elem_of_singleton. done.
Qed.

Lemma fold_Set_add (l s : list string) :
  NoDup s →
  NoDup (fold_left (λ acc x, Set_add x acc) l s)
  ∧ ∀ y, y ∈ fold_left (λ acc x, Set_add x acc) l s ↔ y ∈ s ∨ y ∈ l.
Proof.
  revert s. induction l as [|x l IH]; intros s Hs; simpl.
  - split; [done|]. intros y. rewrite elem_of_nil. tauto.
  - destruct (IH (Set_add x s) (NoDup_Set_add x s Hs)) as [Hnd Hin].
    split; [done|]. intros y.
    rewrite Hin, elem_of_Set_add, elem_of_cons. tauto.
Qed.

(** The three nested loops of lines 260-267 add the column identifiers
    one after the other. *)
Lemma metricNames_of_columns (m : gmap string MetricsRow) :
  metricNames_of m
  = fold_left (λ acc x, Set_add x acc) (columns_of (map_to_list m).*2) [].
Proof.
  unfold metricNames_of, columns_of.
  generalize (@nil string) as acc.
  induction ((map_to_list m).*2) as [|row rows IH]; intros acc; [done|].
  simpl. rewrite fold_left_app, <- IH. f_equal. clear.
  revert acc.
  induction (Object_keys (headMetrics row)) as [|mt mts IH]; intros acc;
    [done|].
  simpl. rewrite fold_left_app, <- IH. f_equal. clear.
  revert acc.
  induction (Object_keys (default ∅ (headMetrics row !! mt))) as [|mn mns IH];
    intros acc; [done|].
  simpl. by rewrite IH.
Qed.

Lemma elem_of_Object_keys {V : Type} (m : gmap string V) (k : string) :
  k ∈ Object_keys m ↔ is_Some (m !! k).
Proof.
  unfold Object_keys. rewrite list_elem_of_fmap. split.
  - intros ([k' v] & -> & Hin). apply elem_of_map_to_list in Hin. by eexists.
  - intros [v Hv]. exists (k, v). split; [done|].
    by apply elem_of_map_to_list.
Qed.

Lemma elem_of_columns_of (rows : list MetricsRow) (x : string) :
  x ∈ columns_of rows
  ↔ ∃ row g metricsValues mn v,
      row ∈ rows ∧ headMetrics row !! g = Some metricsValues
      ∧ metricsValues !! mn = Some v ∧ x = metric_column g mn.
Proof.
  unfold columns_of. rewrite list_elem_of_In, in_flat_map. split.
  - intros (row & Hrow & Hx). apply in_flat_map in Hx as (g & Hg & Hx).
    apply in_map_iff in Hx as (mn & <- & Hmn).
    apply list_elem_of_In, elem_of_Object_keys in Hg as [vs Hvs].
    rewrite Hvs in Hmn. simpl in Hmn.
    apply list_elem_of_In, elem_of_Object_keys in Hmn as [v Hv].
    exists row, g, vs, mn, v. by rewrite list_elem_of_In.
  - intros (row & g & vs & mn & v & Hrow & Hvs & Hv & ->).
    exists row. split; [by apply list_elem_of_In|].
    apply in_flat_map. exists g. split.
    + apply list_elem_of_In, elem_of_Object_keys. by eexists.
    + apply in_map. rewrite Hvs. simpl.
      apply list_elem_of_In, elem_of_Object_keys. by eexists.
Qed.

(** X13: the metric columns of the table are without repetition, and a
    column identifier is among them exactly when some row of the store has
    a generator and a metric of that generator that make up the
    identifier. *)
Theorem metricNames_of_complete (m : gmap string MetricsRow) :
  NoDup (metricNames_of m)
  ∧ ∀ x, x ∈ metricNames_of m
         ↔ ∃ k row g metricsValues mn v,
             m !! k = Some row ∧ headMetrics row !! g = Some metricsValues
             ∧ metricsValues !! mn = Some v ∧ x = metric_column g mn.
Proof.
  rewrite metricNames_of_columns.
  destruct (fold_Set_add (columns_of (map_to_list m).*2) [] (NoDup_nil_2))
    as [Hnd Hin].
  split; [done|]. intros x. rewrite Hin, elem_of_columns_of. split.
  - intros [Hnil|(row & g & vs & mn & v & Hrow & H)];
      [by apply elem_of_nil in Hnil|].
    apply list_elem_of_fmap in Hrow as ([k row'] & -> & Hrow).
    apply elem_of_map_to_list in Hrow. by exists k, row', g, vs, mn, v.
  - intros (k & row & g & vs & mn & v & Hrow & H). right.
    exists row, g, vs, mn, v. split; [|done].
    apply list_elem_of_fmap. exists (k, row). split; [done|].
    by apply elem_of_map_to_list.
Qed.

(** ** Column visibility *)

Lemma Map_get_set (k k' : string) (v : bool) (m : list (string * bool)) :
  Map_get k (Map_set k' v m)
  = if String.eqb k' k then Some v else Map_get k m.
Proof.
  induction m as [|[k0 v0] m IH]; simpl.
  - done.
  - destruct (String.eqb k0 k') eqn:E0; simpl.
    + apply String.eqb_eq in E0 as ->. by destruct (String.eqb k' k).
    + rewrite IH. destruct (String.eqb k0 k) eqn:E1; [|done].
      destruct (String.eqb k' k) eqn:E2; [|done].
      apply String.eqb_eq in E1, E2. subst.
      by rewrite String.eqb_refl in E0.
Qed.

Lemma fold_Map_set (f : string → bool) (names : list string)
    (m : list (string * bool)) (name : string) :
  Map_get name (fold_left (λ acc n, Map_set n (f n) acc) names m)
  = if decide (name ∈ names) then Some (f name) else Map_get name m.
Proof.
  revert m. induction names as [|n names IH]; intros m.
  - destruct (decide (name ∈ [])) as [Hin|_]; [|done].
    by apply elem_of_nil in Hin.
  - simpl fold_left. rewrite IH, Map_get_set.
    destruct (decide (name ∈ names)) as [Hin|Hnin];
      destruct (decide (name ∈ n :: names)) as [Hin'|Hnin']; try done.
    + exfalso. apply Hnin'. apply elem_of_cons. by right.
    + apply elem_of_cons in Hin' as [->|?]; [|done].
      by rewrite String.eqb_refl.
    + destruct (String.eqb n name) eqn:E; [|done].
      apply String.eqb_eq in E as ->.
      exfalso. apply Hnin'. apply elem_of_cons. by left.
Qed.

(** X14: the visibility map built by [renderTable] has an entry for every
    column name of the header and for no other name; the entry hides a
    column named ["id"] and shows every other column. *)
Theorem columnVisibility_hides_id (columnNames : list string) (name : string) :
  Map_get name (columnVisibility columnNames)
  = if decide (name ∈ columnNames) then Some (negb (String.eqb name "id"))
    else None.
Proof.
  unfold columnVisibility.
  apply (fold_Map_set (λ n, negb (String.eqb n "id"))).
Qed.

(** ** Rounding in the metric cells *)

(** The printed form together with what its digits denote. *)
Lemma toFixed3_digits_value (Number_toString : number → string)
    (s : bool) (m : positive) (e : Z) :
  ge_1e21 m e = false →
  ∃ a b : string,
    toFixed3 Number_toString (S754_finite s m e)
    = (if s then "-" else "") +:+ a +:+ "." +:+ b
    ∧ a ≠ "" ∧ all_digits a = true
    ∧ all_digits b = true ∧ String.length b = 3%nat
    ∧ digits_value (a +:+ b) = nearest_thousandth m e.
Proof.
  intros Hge. unfold toFixed3. rewrite Hge.
  set (m0 := decimal (nearest_thousandth m e)).
  set (m1 := if (String.length m0 <=? 3)%nat
             then zeros (3 + 1 - String.length m0) +:+ m0 else m0).
  assert (1 <= String.length m0)%nat as H0
    by apply length_decimal, nearest_thousandth_nonneg.
  assert (all_digits m1 = true) as Hd.
  { unfold m1. destruct (String.length m0 <=? 3)%nat.
    - rewrite all_digits_app, all_digits_zeros. apply all_digits_decimal.
    - apply all_digits_decimal. }
  assert (digits_value m1 = nearest_thousandth m e) as Hv.
  { unfold m1. destruct (String.length m0 <=? 3)%nat.
    - rewrite digits_value_zeros. apply decimal_value, nearest_thousandth_nonneg.
    - apply decimal_value, nearest_thousandth_nonneg. }
  assert (4 <= String.length m1)%nat as H1.
  { unfold m1. destruct (String.length m0 <=? 3)%nat eqn:E.
    - apply Nat.leb_le in E. rewrite length_string_app, length_zeros. lia.
    - apply Nat.leb_gt in E. lia. }
  pose proof (substring_split (String.length m1 - 3) m1 ltac:(lia)) as Hs.
  replace (String.length m1 - (String.length m1 - 3))%nat with 3%nat in Hs
    by lia.
  exists (substring 0 (String.length m1 - 3) m1),
         (substring (String.length m1 - 3) 3 m1).
  split; [done|]. split.
  { intros E. apply (f_equal String.length) in E.
    rewrite length_substring in E by lia. simpl in E. lia. }
  split; [by apply all_digits_substring|].
  split; [by apply all_digits_substring|].
  split; [apply length_substring; lia|].
  by rewrite Hs.
Qed.

(** X15: a metric value that the row holds and that is a binary64 number
    [m * 2^e] with a fractional part is shown rounded to the nearest
    thousandth: the cell is the sign, one or more decimal digits, a point and
    three decimal digits, and the number that the digits denote is the
    integer nearest to [1000 * m * 2^e], the larger one on a tie. *)
Theorem metric_cell_rounds_to_thousandth (Number_toString : number → string)
    (inherited : list string → Inherited)
    (row : MetricsRow) (g mname : string) (metricsValues : gmap string number)
    (s : bool) (m : positive) (e : Z) :
  has_colon_space g = false → has_colon_space mname = false →
  headMetrics row !! g = Some metricsValues →
  metricsValues !! mname = Some (S754_finite s m e) →
  is_double (S754_finite s m e) = true →
  rem1_nonzero (S754_finite s m e) = true →
  ∃ a b : string,
    metric_cell Number_toString inherited row (metric_column g mname)
    = CellString ((if s then "-" else "") +:+ a +:+ "." +:+ b)
    ∧ a ≠ "" ∧ all_digits a = true
    ∧ all_digits b = true ∧ String.length b = 3%nat
    ∧ e < 0
    ∧ - 2 ^ (- e)
      < 2 * (digits_value (a +:+ b) * 2 ^ (- e) - Z.pos m * 1000)
      <= 2 ^ (- e).
Proof.
  intros Hg Hm Hvs Hv Hd Hr.
  rewrite metric_cell_column by done.
  unfold number in *.
  rewrite Hvs. cbv beta iota. rewrite Hv. cbv beta iota.
  unfold number_cell. rewrite Hr.
  pose proof (fractional_double_below_1e21 s m e Hd Hr) as Hge.
  destruct (toFixed3_digits_value Number_toString s m e Hge)
    as (a & b & -> & Ha & Hda & Hdb & Hb & Hn).
  exists a, b. do 5 (split; [done|]).
  assert (e < 0) as He.
  { simpl in Hr. destruct (0 <=? e) eqn:E; [done|]. by apply Z.leb_gt. }
  split; [done|]. rewrite Hn.
  pose proof (nearest_thousandth_spec m e) as [_ H]. simpl in H.
  rewrite (Z.max_r e 0), (Z.max_l (- e) 0) in H by lia.
  change (2 ^ 0) with 1 in H. lia.
Qed.

Lemma metric_cell_rounds_to_thousandth_witness :
  ∃ a b : string,
    metric_cell toString_nonfinite sample_inherited two_generator_row
      (metric_column "classification" "accuracy")
    = CellString ((if false then "-" else "") +:+ a +:+ "." +:+ b)
    ∧ a ≠ "" ∧ all_digits a = true
    ∧ all_digits b = true ∧ String.length b = 3%nat
    ∧ -53 < 0
    ∧ - 2 ^ (- -53)
      < 2 * (digits_value (a +:+ b) * 2 ^ (- -53)
             - Z.pos 4503599627370496 * 1000)
      <= 2 ^ (- -53).
Proof.
  apply (metric_cell_rounds_to_thousandth toString_nonfinite sample_inherited
           two_generator_row
           "classification" "accuracy" {[ "accuracy" := num_0_5 ]}
           false 4503599627370496 (-53)).
  - reflexivity.
  - reflexivity.
  - vm_compute. reflexivity.
  - reflexivity.
  - reflexivity.
  - reflexivity.
Defined.

(** ** The facet checkboxes *)

Lemma updateAllFacetedMetrics_selectedFacets (env : Env) (st : State) :
  selectedFacets (updateAllFacetedMetrics env st) = selectedFacets st.
Proof.
  unfold updateAllFacetedMetrics. destruct (0 <? length _)%nat; [|done].
  destruct (updateFacetedMetrics_keeps env (currentInputData env) false
    (updateFacetedMetrics env (selectedInputData env) true
       (with_metricsMap (evict has_facets (metricsMap st)) st)))
    as (_ & -> & _).
  by destruct (updateFacetedMetrics_keeps env (selectedInputData env) true
    (with_metricsMap (evict has_facets (metricsMap st)) st)) as (_ & -> & _).
Qed.

Lemma indexOf_first (l1 l2 : list string) (key : string) :
  key ∉ l1 → indexOf (l1 ++ key :: l2) key = Some (length l1).
Proof.
  induction l1 as [|x l1 IH]; intros Hnin; simpl.
  - by rewrite String.eqb_refl.
  - apply not_elem_of_cons in Hnin as [Hne Hnin].
    destruct (String.eqb x key) eqn:E.
    + apply String.eqb_eq in E. congruence.
    + by rewrite IH.
Qed.

Lemma indexOf_absent (l : list string) (key : string) :
  key ∉ l → indexOf l key = None.
Proof.
  induction l as [|x l IH]; intros Hnin; [done|]. simpl.
  apply not_elem_of_cons in Hnin as [Hne Hnin].
  destruct (String.eqb x key) eqn:E.
  - apply String.eqb_eq in E. congruence.
  - by rewrite IH.
Qed.

Lemma splice_middle (l1 l2 : list string) (x : string) :
  take (length l1) (l1 ++ x :: l2) ++ drop (S (length l1)) (l1 ++ x :: l2)
  = l1 ++ l2.
Proof. induction l1 as [|y l1 IH]; [done|]. simpl. by rewrite IH. Qed.

(** X16: unchecking a facet removes its first occurrence from the selected
    facets and keeps the order of the others; unchecking a facet that is not
    selected removes the last selected facet, because [indexOf] gives -1 and
    [splice(-1, 1)] counts from the end. *)
Theorem uncheck_removes_first_or_last (env : Env) (key : string) (st : State) :
  (∀ l1 l2, selectedFacets st = l1 ++ key :: l2 → key ∉ l1 →
            selectedFacets (onFeatureCheckboxChange env false key st)
            = l1 ++ l2)
  ∧ (key ∉ selectedFacets st →
     selectedFacets (onFeatureCheckboxChange env false key st)
     = removelast (selectedFacets st)).
Proof.
  unfold onFeatureCheckboxChange. rewrite updateAllFacetedMetrics_selectedFacets.
  simpl. split.
  - intros l1 l2 -> Hnin. rewrite indexOf_first by done.
    apply splice_middle.
  - intros Hnin. rewrite indexOf_absent by done. simpl.
    generalize (selectedFacets st). clear. intros l.
    induction l as [|x l IH]; [done|].
    destruct l as [|y l]; [done|].
    simpl in *. f_equal. rewrite <- IH. f_equal. lia.
Qed.

Lemma uncheck_removes_first_or_last_witness :
  selectedFacets
    (onFeatureCheckboxChange sample_env false "label"
       (with_selectedFacets ["genre"; "label"; "length"] initial))
  = ["genre"] ++ ["length"]
  ∧ selectedFacets
      (onFeatureCheckboxChange sample_env false "label"
         (with_selectedFacets ["genre"; "length"] initial))
    = removelast ["genre"; "length"].
Proof.
  split.
  - apply (uncheck_removes_first_or_last sample_env "label"
             (with_selectedFacets ["genre"; "label"; "length"] initial)).
    + reflexivity.
    + intros Hin. apply elem_of_cons in Hin as [Hin|Hin]; [discriminate|].
      by apply elem_of_nil in Hin.
  - apply (uncheck_removes_first_or_last sample_env "label"
             (with_selectedFacets ["genre"; "length"] initial)).
    intros Hin. apply elem_of_cons in Hin as [Hin|Hin]; [discriminate|].
    apply elem_of_cons in Hin as [Hin|Hin]; [discriminate|].
    by apply elem_of_nil in Hin.
Defined.

(** X17: checking a facet that is not selected and unchecking it again
    gives back the selected facets as they were. *)
Theorem check_uncheck_restores (env env' : Env) (key : string) (st : State) :
  key ∉ selectedFacets st →
  selectedFacets
    (onFeatureCheckboxChange env' false key
       (onFeatureCheckboxChange env true key st))
  = selectedFacets st.
Proof.
  intros Hnin. unfold onFeatureCheckboxChange.
  rewrite !updateAllFacetedMetrics_selectedFacets. simpl.
  rewrite ?updateAllFacetedMetrics_selectedFacets. simpl.
  rewrite indexOf_first by done.
  unfold splice1. by rewrite splice_middle, app_nil_r.
Qed.

Lemma check_uncheck_restores_witness :
  selectedFacets
    (onFeatureCheckboxChange sample_env false "genre"
       (onFeatureCheckboxChange sample_env true "genre" faceted_state))
  = selectedFacets faceted_state.
Proof.
  apply (check_uncheck_restores sample_env sample_env "genre" faceted_state).
  intros Hin. apply elem_of_cons in Hin as [Hin|Hin]; [discriminate|].
  by apply elem_of_nil in Hin.
Defined.

(** ** Independent rows *)

(** X18: two upserts that address different row keys do not interfere,
    whatever invocations they come from: under every key, the row that the
    store holds after both is the same whichever of them ran first.  (The
    order in which the keys are enumerated is not part of the store as
    modelled here, and the statement says nothing about it.) *)
Theorem upserts_of_distinct_keys_commute
    (model1 name1 : string) (datapoints1 : list IndexedInput.t)
    (src1 : Source) (facetMap1 : option FacetMap) (metricsType1 : string)
    (resp1 : MetricsResponse)
    (model2 name2 : string) (datapoints2 : list IndexedInput.t)
    (src2 : Source) (facetMap2 : option FacetMap) (metricsType2 : string)
    (resp2 : MetricsResponse) (m : gmap string MetricsRow) (k : string) :
  getRowKey model1 name1 (pred_key resp1) facetMap1
  ≠ getRowKey model2 name2 (pred_key resp2) facetMap2 →
  upsert model1 name1 datapoints1 src1 facetMap1 metricsType1 resp1
    (upsert model2 name2 datapoints2 src2 facetMap2 metricsType2 resp2 m) !! k
  = upsert model2 name2 datapoints2 src2 facetMap2 metricsType2 resp2
      (upsert model1 name1 datapoints1 src1 facetMap1 metricsType1 resp1 m)
      !! k.
Proof.
  intros Hne.
  set (k1 := getRowKey model1 name1 (pred_key resp1) facetMap1) in *.
  set (k2 := getRowKey model2 name2 (pred_key resp2) facetMap2) in *.
  destruct (decide (k = k1)) as [->|H1]; [|destruct (decide (k = k2)) as [->|H2]].
  - rewrite (upsert_lookup_ne model2 name2 datapoints2 src2 facetMap2
               metricsType2 resp2 _ k1) by done.
    destruct (m !! k1) as [row|] eqn:E.
    + rewrite !(upsert_lookup_present model1 name1 datapoints1 src1 facetMap1
                  metricsType1 resp1 _ row); try done.
      by rewrite upsert_lookup_ne.
    + rewrite !(upsert_lookup_absent model1 name1 datapoints1 src1 facetMap1
                  metricsType1 resp1); try done.
      by rewrite upsert_lookup_ne.
  - rewrite (upsert_lookup_ne model1 name1 datapoints1 src1 facetMap1
               metricsType1 resp1 _ k2) by done.
    destruct (m !! k2) as [row|] eqn:E.
    + rewrite !(upsert_lookup_present model2 name2 datapoints2 src2 facetMap2
                  metricsType2 resp2 _ row); try done.
      by rewrite upsert_lookup_ne.
    + rewrite !(upsert_lookup_absent model2 name2 datapoints2 src2 facetMap2
                  metricsType2 resp2); try done.
      by rewrite upsert_lookup_ne.
  - by rewrite !upsert_lookup_ne.
Qed.

Lemma upserts_of_distinct_keys_commute_witness :
  upsert "sst2" "dataset" two_examples DATASET None "classification"
    accuracy_response
    (upsert "sst2" "selection" one_example SELECTION None "regression"
       f1_response ∅) !! "sst2-dataset-label-"
  = upsert "sst2" "selection" one_example SELECTION None "regression"
      f1_response
      (upsert "sst2" "dataset" two_examples DATASET None "classification"
         accuracy_response ∅) !! "sst2-dataset-label-".
Proof.
  apply (upserts_of_distinct_keys_commute
           "sst2" "dataset" two_examples DATASET None "classification"
           accuracy_response
           "sst2" "selection" one_example SELECTION None "regression"
           f1_response ∅ "sst2-dataset-label-").
  discriminate.
Defined.

(** ** The facet columns and the selection *)

(** X19: in row [i] of the table, the cell of the [j]-th selected facet
    is the row's own value for that facet when that is a non-empty string;
    it is ['-'] when the row carries no facets or its own value is the
    empty string; and when the row's facets lack the facet it is ['-']
    provided the facet's name is not the name of something that plain
    objects inherit. *)
Theorem tableData_facet_cell (Number_toString : number → string)
    (inherited : list string → Inherited)
    (st : State) (i j : nat) (row : MetricsRow) (facet : string) :
  (map_to_list (metricsMap st)).*2 !! i = Some row →
  selectedFacets st !! j = Some facet →
  ∃ cells cell,
    table_data (tableData Number_toString inherited st) !! i = Some cells
    ∧ cells !! (5 + j)%nat = Some cell
    ∧ match facets row with
      | Some fm =>
          match FacetMap_get fm facet with
          | Some v => cell = CellString (if String.eqb v "" then "-" else v)
          | None => inherited [facet] = Nullish → cell = CellString "-"
          end
      | None => cell = CellString "-"
      end.
Proof.
  intros Hrow Hfacet. unfold tableData.
  set (names := metricNames_of (metricsMap st)).
  set (fnames := selectedFacets st) in *.
  simpl table_data.
  rewrite list_lookup_imap, Hrow. simpl.
  eexists _, (facet_cell inherited row facet). split; [done|]. split.
  - unfold table_row.
    rewrite lookup_app_r by (simpl; lia).
    match goal with
    | |- _ !! ?n = _ => replace n with j by (simpl; lia)
    end.
    change (map (facet_cell inherited row) fnames)
      with (facet_cell inherited row <$> fnames).
    rewrite lookup_app_l
      by (rewrite length_fmap; by apply lookup_lt_Some in Hfacet).
    by rewrite list_lookup_fmap, Hfacet.
  - unfold facet_cell. destruct (facets row) as [fm|]; [|done].
    destruct (FacetMap_get fm facet) as [v|].
    + by destruct (String.eqb v "").
    + by intros ->.
Qed.

Lemma tableData_facet_cell_witness :
  (∃ cells cell,
     table_data (tableData toString_nonfinite sample_inherited faceted_state)
       !! 0%nat = Some cells
     ∧ cells !! (5 + 0)%nat = Some cell
     ∧ cell = CellString (if String.eqb "1" "" then "-" else "1"))
  ∧ (∃ cells cell,
       table_data (tableData toString_nonfinite sample_inherited
                     (with_selectedFacets ["genre"] faceted_state))
         !! 0%nat = Some cells
       ∧ cells !! (5 + 0)%nat = Some cell
       ∧ (sample_inherited ["genre"] = Nullish → cell = CellString "-")).
Proof.
  split.
  - apply (tableData_facet_cell toString_nonfinite sample_inherited
             faceted_state 0 0 faceted_selection_row "label").
    + vm_compute. reflexivity.
    + reflexivity.
  - apply (tableData_facet_cell toString_nonfinite sample_inherited
             (with_selectedFacets ["genre"] faceted_state) 0 0
             faceted_selection_row "genre").
    + vm_compute. reflexivity.
    + reflexivity.
Defined.

(** X20: when the selection changes and is empty, nothing is started: no
    invocation, no request, and the counter stays; when it is not empty, an
    invocation for the whole selection is started first and then, if a facet
    dimension is selected, one per facet group of the selection. *)
Theorem on_selection_starts (env : Env) (st : State) :
  (selectedInputData env = [] →
   awaiting (on_selection env st) = awaiting st
   ∧ issued (on_selection env st) = issued st
   ∧ pendingCalls (on_selection env st) = pendingCalls st)
  ∧ (selectedInputData env ≠ [] →
     awaiting (on_selection env st)
     = awaiting st
       ++ {| call_models := currentModels env;
             call_datapoints := selectedInputData env;
             call_source := SELECTION; call_facetMap := None;
             call_displayName := None |}
          :: match selectedFacets st with
             | [] => []
             | _ => facet_calls env SELECTION (selectedInputData env)
                      (selectedFacets st)
             end).
Proof.
  unfold on_selection. split.
  - intros ->. done.
  - intros Hne. destruct (selectedInputData env) as [|x d] eqn:E; [done|].
    change (0 <? length (x :: d))%nat with true. cbv iota.
    set (st1 := addMetrics env (x :: d) SELECTION None None
                  (with_metricsMap (evict is_selection (metricsMap st)) st)).
    assert (selectedFacets st1 = selectedFacets st) as Ef by done.
    destruct (selectedFacets st) as [|f fs] eqn:E'.
    + unfold updateFacetedMetrics. rewrite Ef. done.
    + rewrite updateFacetedMetrics_awaiting by by rewrite Ef.
      rewrite Ef. unfold st1. rewrite addMetrics_awaiting.
      by rewrite <- app_assoc.
Qed.

Lemma on_selection_starts_witness :
  (awaiting (on_selection sample_env faceted_state) = awaiting faceted_state
   ∧ issued (on_selection sample_env faceted_state) = issued faceted_state
   ∧ pendingCalls (on_selection sample_env faceted_state)
     = pendingCalls faceted_state)
  ∧ awaiting (on_selection
                {| currentModels := ["sst2"]; currentInputData := two_examples;
                   currentDataset := "sst_dev";
                   selectedInputData := one_example;
                   marginSettings := ∅; groupExamplesByFeatures := λ _ _, [];
                   sliceNames := []; getSliceDataByName := λ _, [] |}
                initial)
    = awaiting initial
      ++ {| call_models := ["sst2"]; call_datapoints := one_example;
            call_source := SELECTION; call_facetMap := None;
            call_displayName := None |}
         :: match selectedFacets initial with
            | [] => []
            | _ => facet_calls
                     {| currentModels := ["sst2"];
                        currentInputData := two_examples;
                        currentDataset := "sst_dev";
                        selectedInputData := one_example;
                        marginSettings := ∅;
                        groupExamplesByFeatures := λ _ _, [];
                        sliceNames := []; getSliceDataByName := λ _, [] |}
                     SELECTION one_example (selectedFacets initial)
            end.
Proof.
  split.
  - apply (on_selection_starts sample_env faceted_state). reflexivity.
  - apply (on_selection_starts
             {| currentModels := ["sst2"]; currentInputData := two_examples;
                currentDataset := "sst_dev"; selectedInputData := one_example;
                marginSettings := ∅; groupExamplesByFeatures := λ _ _, [];
                sliceNames := []; getSliceDataByName := λ _, [] |}
             initial).
    discriminate.
Defined.

(** ** Last entry wins *)

Lemma fold_left_preserves_Forall {A B : Type} (f : A → B → A) (P : A → Prop)
    (R : B → Prop) :
  (∀ a b, R b → P a → P (f a b)) →
  ∀ l a, Forall R l → P a → P (fold_left f l a).
Proof.
  intros Hf l. induction l as [|b l IH]; intros a Hl Ha; [done|].
  apply Forall_cons in Hl as [Hb Hl]. simpl. by apply IH, Hf.
Qed.

(** X21: among the upserts of one continuation, the last one for a row key
    and a generator decides: after the continuation the row under that key
    has that entry's metrics for the generator, and the ids of the batch as
    [exampleIds]. *)
Theorem batch_last_entry_wins (c : Call) (r : Settled) (st : State)
    (l1 l2 : list (string * string * MetricsResponse))
    (model_i metricsType : string) (resp : MetricsResponse) :
  let name :=
    display_name (call_source c) (call_facetMap c) (call_displayName c) in
  let key (t : string * string * MetricsResponse) :=
    getRowKey t.1.1 name (pred_key t.2) (call_facetMap c) in
  upserts_of (combine (call_models c) (results_of r))
  = l1 ++ (model_i, metricsType, resp) :: l2 →
  Forall (λ t, ¬ (key t = key (model_i, metricsType, resp)
                  ∧ t.1.2 = metricsType)) l2 →
  ∃ row,
    metricsMap (addMetrics_resume c r st).1
      !! getRowKey model_i name (pred_key resp) (call_facetMap c) = Some row
    ∧ headMetrics row !! metricsType = Some (metrics resp)
    ∧ exampleIds row = ids_of (call_datapoints c).
Proof.
  intros name key Hsplit Hlast.
  rewrite addMetrics_resume_metricsMap, Hsplit, fold_left_app. simpl.
  fold name.
  match goal with
  | |- context [fold_left ?f l1 ?m0] => set (m1 := fold_left f l1 m0)
  end.
  refine (fold_left_preserves_Forall _
    (λ m, ∃ row,
       m !! getRowKey model_i name (pred_key resp) (call_facetMap c) = Some row
       ∧ headMetrics row !! metricsType = Some (metrics resp)
       ∧ exampleIds row = ids_of (call_datapoints c))
    _ _ l2 _ Hlast _).
  - intros m [[model' mt'] resp'] Hne (row & E & Hh & Hids). simpl in *.
    unfold key in Hne. simpl in Hne.
    destruct (decide (getRowKey model' name (pred_key resp') (call_facetMap c)
                      = getRowKey model_i name (pred_key resp) (call_facetMap c)))
      as [Heq|Hk].
    + rewrite <- Heq in *. eexists.
      split; [by apply upsert_lookup_present|]. simpl. split; [|done].
      rewrite lookup_insert_ne; [done|]. intros ->. by apply Hne.
    + exists row. by rewrite upsert_lookup_ne.
  - destruct (m1 !! getRowKey model_i name (pred_key resp) (call_facetMap c))
      as [row|] eqn:E.
    + eexists. split; [by apply upsert_lookup_present|]. simpl.
      by rewrite lookup_insert_eq.
    + eexists. split; [by apply upsert_lookup_absent|]. simpl.
      by rewrite lookup_singleton_eq.
Qed.

Lemma batch_last_entry_wins_witness :
  ∃ row,
    metricsMap
      (addMetrics_resume
         {| call_models := ["sst2"]; call_datapoints := two_examples;
            call_source := DATASET; call_facetMap := None;
            call_displayName := None |}
         (Fulfilled [Some [("classification", [f1_response; accuracy_response])]])
         initial).1
      !! getRowKey "sst2" (display_name DATASET None None)
                   (pred_key accuracy_response) None
    = Some row
    ∧ headMetrics row !! "classification" = Some (metrics accuracy_response)
    ∧ exampleIds row = ids_of two_examples.
Proof.
  apply (batch_last_entry_wins
           {| call_models := ["sst2"]; call_datapoints := two_examples;
              call_source := DATASET; call_facetMap := None;
              call_displayName := None |}
           (Fulfilled [Some [("classification", [f1_response; accuracy_response])]])
           initial
           [("sst2", "classification", f1_response)] []
           "sst2" "classification" accuracy_response).
  - reflexivity.
  - constructor.
Defined.

(** ** The counter and the requests of a batch *)

Lemma handle_appends (env : Env) (ev : Event) (st st' : State) :
  (∀ i r, ev ≠ Settle i r) → handle env ev st = Some st' →
  ∃ new, awaiting st' = awaiting st ++ new.
Proof.
  intros Hev H.
  set (P := λ s : State, ∃ new, awaiting s = awaiting st ++ new).
  assert (P st) as H0 by (exists []; by rewrite app_nil_r).
  assert (∀ env datapoints src facetMap displayName s,
            call_site src facetMap displayName datapoints →
            P s → P (addMetrics env datapoints src facetMap displayName s))
    as HA.
  { intros ? ? ? ? ? s _ [new E]. eexists.
    rewrite addMetrics_awaiting, E, <- app_assoc. done. }
  assert (∀ p s, P s → P (with_metricsMap (evict p (metricsMap s)) s))
    as HE by done.
  cut (P st'); [done|].
  destruct ev; simpl in H; try (injection H as <-).
  - unfold firstUpdated.
    by apply on_dataset_invariant, on_selection_invariant.
  - by apply on_dataset_invariant.
  - by apply on_selection_invariant.
  - by apply on_dataset_invariant.
  - unfold on_sliceNames. by apply updateSliceMetrics_invariant.
  - unfold onFeatureCheckboxChange.
    by apply updateAllFacetedMetrics_invariant.
  - unfold onSlicesCheckboxChecked. by apply updateSliceMetrics_invariant.
  - by destruct (Hev i r).
Qed.

Lemma handle_settle (env : Env) (i : nat) (r : Settled) (st st' : State) :
  handle env (Settle i r) st = Some st' →
  ∃ c, awaiting st !! i = Some c ∧ can_settle c r = true
       ∧ pendingCalls st' = pendingCalls st - 1
       ∧ awaiting st' = delete i (awaiting st).
Proof.
  simpl. destruct (awaiting st !! i) as [c|] eqn:E; [|done].
  destruct (can_settle c r) eqn:Hr; [|done]. intros [= <-].
  exists c.
  destruct (addMetrics_resume_fields c r
              (with_awaiting (delete i (awaiting st)) st)) as (-> & -> & _).
  done.
Qed.

Lemma initial_promises_ok (c : Call) : promises_ok c (initial_promises c).
Proof.
  unfold promises_ok, initial_promises. split; [by rewrite length_map|].
  apply Forall_forall. intros p Hp.
  apply list_elem_of_In, in_map_iff in Hp as (model_i & <- & _).
  destruct (length (call_datapoints c) =? 0)%nat eqn:E; simpl; by rewrite ?E.
Qed.

Lemma resolved_values_ok (c : Call) (ps : list PromiseState)
    (vs : list (option ModelMetrics)) :
  Forall (promise_ok c) ps → resolved_values ps = Some vs →
  length vs = length ps
  ∧ forallb (λ o, eqb (is_undefined o)
                      (length (call_datapoints c) =? 0)%nat) vs = true.
Proof.
  intros Hps. revert vs.
  induction Hps as [|p ps Hp Hps IH]; intros vs H; simpl in H.
  - by injection H as <-.
  - destruct p as [|v|]; try done.
    destruct (resolved_values ps) as [vs'|]; [|done]. injection H as <-.
    destruct (IH vs' eq_refl) as [Hlen Hall]. simpl. split; [by rewrite Hlen|].
    rewrite Hall. simpl in Hp. rewrite Hp.
    by destruct (length (call_datapoints c) =? 0)%nat.
Qed.

(** Whatever way [Promise.all] of the promises of a waiting invocation
    settles, the continuation can run. *)
Lemma Promise_all_can_settle (c : Call) (ps : list PromiseState)
    (r : Settled) :
  promises_ok c ps → Promise_all ps = Some r → can_settle c r = true.
Proof.
  intros [Hlen Hps] H. unfold Promise_all in H.
  destruct (existsb is_Failed ps) eqn:Hf.
  - injection H as <-. apply existsb_exists in Hf as (p & Hin & Hp).
    destruct p; try done.
    apply list_elem_of_In in Hin.
    pose proof (proj1 (Forall_forall _ _) Hps _ Hin) as Hok. simpl in Hok.
    unfold can_settle. rewrite Hok. simpl.
    destruct ps as [|p ps]; [by apply elem_of_nil in Hin|].
    simpl in Hlen. rewrite <- Hlen. done.
  - destruct (resolved_values ps) as [vs|] eqn:Hv; [|done]. injection H as <-.
    destruct (resolved_values_ok c ps vs Hps Hv) as [Hl Hall].
    unfold can_settle. rewrite Hall, Hl, Hlen. by rewrite Nat.eqb_refl.
Qed.

(** [Promise.all] has settled exactly when one of the promises is rejected
    or all of them are fulfilled. *)
Lemma Promise_all_settled (ps : list PromiseState) :
  is_Some (Promise_all ps)
  ↔ existsb is_Failed ps = true ∨ forallb is_Resolved ps = true.
Proof.
  unfold Promise_all. destruct (existsb is_Failed ps) eqn:Hf.
  - split; [by left | by eexists].
  - assert (is_Some (resolved_values ps) ↔ forallb is_Resolved ps = true) as E.
    { clear. induction ps as [|[|v|] ps IH]; simpl.
      - split; [done | by eexists].
      - split; [by intros [? ?] | done].
      - rewrite <- IH. destruct (resolved_values ps); split;
          intros [? ?]; try done; by eexists.
      - split; [by intros [? ?] | done]. }
    destruct (resolved_values ps) as [vs|].
    + split; [intros _; right; apply E; by eexists | by eexists].
    + split; [by intros [? ?]|]. intros [?|H]; [done|].
      apply E in H as [? ?]. done.
Qed.

Lemma set_promise_spec (i j : nat) (p : PromiseState) (run run' : Run) :
  set_promise i j p run = Some run' →
  module_state run' = module_state run
  ∧ ∃ ps, promises run !! i = Some ps ∧ ps !! j = Some Pending
          ∧ promises run' = <[i := <[j := p]> ps]> (promises run).
Proof.
  unfold set_promise. destruct (promises run !! i) as [ps|] eqn:E; [|done].
  destruct (ps !! j) as [[| |]|] eqn:Ej; try done.
  intros [= <-]. split; [done|]. by exists ps.
Qed.

Lemma set_promise_aligned (i j : nat) (p : PromiseState) (run run' : Run) :
  (∀ c, (length (call_datapoints c) =? 0)%nat = false → promise_ok c p) →
  aligned run → set_promise i j p run = Some run' → aligned run'.
Proof.
  intros Hp Hal H.
  apply set_promise_spec in H as (Hm & ps & Hi & Hj & Hps).
  unfold aligned in *. rewrite Hm, Hps.
  destruct (Forall2_lookup_r _ _ _ _ _ Hal Hi) as (c & Hc & [Hlen Hok]).
  rewrite <- (list_insert_id _ _ _ Hc).
  apply Forall2_insert; [done|]. split; [by rewrite length_insert|].
  apply Forall_insert; [done|]. apply Hp.
  apply (Forall_lookup_1 _ _ _ _ Hok Hj).
Qed.

Lemma turn_occurs (env : Env) (ev : Event) (run run' : Run) :
  turn env (Occurs ev) run = Some run' →
  (∀ i r, ev ≠ Settle i r)
  ∧ handle env ev (module_state run) = Some (module_state run')
  ∧ promises run'
    = promises run
      ++ map initial_promises
           (drop (length (awaiting (module_state run)))
                 (awaiting (module_state run'))).
Proof.
  intros H.
  destruct ev; unfold turn, handle in H; try discriminate H;
    injection H as <-; (split; [intros; discriminate|]); by split.
Qed.

Lemma turn_aligned (env : Env) (t : Turn) (run run' : Run) :
  aligned run → turn env t run = Some run' → aligned run'.
Proof.
  intros Hal H. destruct t as [ev|i j v|i j|i].
  - apply turn_occurs in H as (Hev & Hh & Hp).
    destruct (handle_appends _ _ _ _ Hev Hh) as [new Hnew].
    unfold aligned. rewrite Hp, Hnew, drop_app_length.
    apply Forall2_app; [done|].
    clear. induction new as [|c new IH]; constructor;
      [apply initial_promises_ok | done].
  - apply (set_promise_aligned i j (Resolved (Some v)) run); try done;
      intros c Hc; simpl; by rewrite Hc.
  - by apply (set_promise_aligned i j Failed run).
  - unfold turn in H.
    destruct (promises run !! i) as [ps|] eqn:Hi; [|done].
    destruct (Promise_all ps) as [r|]; [|done].
    destruct (handle env (Settle i r) (module_state run)) as [st'|] eqn:Hh;
      [|done].
    injection H as <-. unfold aligned. simpl.
    apply handle_settle in Hh as (c & _ & _ & _ & ->).
    by apply Forall2_delete.
Qed.

Lemma turn_module (env : Env) (t : Turn) (run run' : Run) :
  turn env t run = Some run' →
  module_state run' = module_state run
  ∨ ∃ ev, handle env ev (module_state run) = Some (module_state run').
Proof.
  intros H. destruct t as [ev|i j v|i j|i].
  - right. exists ev. by apply turn_occurs in H as (_ & ? & _).
  - left. by apply set_promise_spec in H as [? _].
  - left. by apply set_promise_spec in H as [? _].
  - unfold turn in H.
    destruct (promises run !! i) as [ps|]; [|done].
    destruct (Promise_all ps) as [r|]; [|done]. right. exists (Settle i r).
    destruct (handle env (Settle i r) (module_state run)) as [st'|] eqn:E;
      [by injection H as <-|done].
Qed.

Lemma run_reachable_aligned (run : Run) :
  run_reachable run → reachable (module_state run) ∧ aligned run.
Proof.
  induction 1 as [|env t run run' _ [IHr IHa] H].
  - split; [apply reachable_initial | constructor].
  - split; [|by apply (turn_aligned env t run)].
    destruct (turn_module env t run run' H) as [->|[ev Hev]]; [done|].
    by apply (reachable_handle env ev (module_state run)).
Qed.

(** C2, as stated, fails: the counter is taken down when the awaited
    [Promise.all] settles, and that is rejected by the first request that
    fails.  In the run below the dataset batch has two requests; the first
    has failed, the second is still in flight, and the continuation runs
    and brings the counter from 1 to 0. *)
Lemma decrement_while_request_pending :
  run_reachable one_failed_run
  ∧ promises one_failed_run = [[Failed; Pending]]
  ∧ pendingCalls (module_state one_failed_run) = 1
  ∧ ∃ run',
      turn two_model_env (Continues 0) one_failed_run = Some run'
      ∧ pendingCalls (module_state run') = 0.
Proof.
  split; [|split; [|split]].
  - apply (run_reachable_turn two_model_env (RequestFails 0 0)
             (default run_initial
                (turn two_model_env (Occurs FirstUpdated) run_initial)));
      [|reflexivity].
    apply (run_reachable_turn two_model_env (Occurs FirstUpdated) run_initial);
      [|reflexivity].
    apply run_reachable_initial.
  - reflexivity.
  - reflexivity.
  - eexists. split; reflexivity.
Qed.

(** C2 (amended): an invocation of [addMetrics] adds one to [pendingCalls]
    when it starts; the answers and failures of single requests leave the
    counter alone; the continuation takes one off, once, when the awaited
    batch has settled, which is when all of its requests are fulfilled or
    as soon as one of them has failed, whatever the others do; and a settled
    batch can always continue.  So in every run the counter equals the
    number of batches that have not continued: it is never negative, and it
    is zero when there is none. *)
Theorem pendingCalls_settles_with_batch :
  (∀ env datapoints src facetMap displayName st,
     pendingCalls (addMetrics env datapoints src facetMap displayName st)
     = pendingCalls st + 1)
  ∧ (∀ env i j v run run',
       turn env (RequestFulfils i j v) run = Some run'
       ∨ turn env (RequestFails i j) run = Some run' →
       pendingCalls (module_state run') = pendingCalls (module_state run))
  ∧ (∀ env i run run',
       turn env (Continues i) run = Some run' →
       ∃ ps,
         promises run !! i = Some ps
         ∧ (existsb is_Failed ps = true ∨ forallb is_Resolved ps = true)
         ∧ pendingCalls (module_state run')
           = pendingCalls (module_state run) - 1
         ∧ promises run' = delete i (promises run))
  ∧ (∀ env i ps run,
       run_reachable run → promises run !! i = Some ps →
       existsb is_Failed ps = true ∨ forallb is_Resolved ps = true →
       is_Some (turn env (Continues i) run))
  ∧ (∀ run,
       run_reachable run →
       pendingCalls (module_state run) = Z.of_nat (length (promises run))
       ∧ 0 ≤ pendingCalls (module_state run)
       ∧ (promises run = [] → pendingCalls (module_state run) = 0)).
Proof.
  split; [|split; [|split; [|split]]].
  - intros. apply addMetrics_pendingCalls.
  - intros env i j v run run' [H|H]; simpl in H;
      apply set_promise_spec in H as [-> _]; done.
  - intros env i run run' H. unfold turn in H.
    destruct (promises run !! i) as [ps|] eqn:Hi; [|done].
    destruct (Promise_all ps) as [r|] eqn:Hr; [|done].
    destruct (handle env (Settle i r) (module_state run)) as [st'|] eqn:Hh;
      [|done].
    injection H as <-. exists ps. split; [done|].
    split; [apply Promise_all_settled; by eexists|].
    apply handle_settle in Hh as (c & _ & _ & Hp & _). simpl. by rewrite Hp.
  - intros env i ps run Hrun Hi Hs.
    apply run_reachable_aligned in Hrun as [_ Hal].
    apply Promise_all_settled in Hs as [r Hr].
    destruct (Forall2_lookup_r _ _ _ _ _ Hal Hi) as (c & Hc & Hok).
    pose proof (Promise_all_can_settle c ps r Hok Hr) as Hcan.
    unfold turn, handle. rewrite Hi, Hr, Hc, Hcan. by eexists.
  - intros run Hrun.
    apply run_reachable_aligned in Hrun as [Hr Hal].
    apply reachable_excess in Hr. unfold excess in Hr.
    apply Forall2_length in Hal.
    split; [lia|]. split; [lia|].
    intros E. rewrite E in Hal. simpl in Hal. lia.
Qed.

Lemma pendingCalls_settles_with_batch_witness :
  (∃ ps,
     promises one_failed_run !! 0%nat = Some ps
     ∧ (existsb is_Failed ps = true ∨ forallb is_Resolved ps = true)
     ∧ pendingCalls
         (module_state
            (default run_initial
               (turn two_model_env (Continues 0) one_failed_run)))
       = pendingCalls (module_state one_failed_run) - 1
     ∧ promises
         (default run_initial
            (turn two_model_env (Continues 0) one_failed_run))
       = delete 0%nat (promises one_failed_run))
  ∧ is_Some (turn two_model_env (Continues 0) one_failed_run)
  ∧ (pendingCalls (module_state one_failed_run)
     = Z.of_nat (length (promises one_failed_run))
     ∧ 0 ≤ pendingCalls (module_state one_failed_run)
     ∧ (promises one_failed_run = [] →
        pendingCalls (module_state one_failed_run) = 0)).
Proof.
  assert (run_reachable one_failed_run) as Hrun.
  { apply (run_reachable_turn two_model_env (RequestFails 0 0)
             (default run_initial
                (turn two_model_env (Occurs FirstUpdated) run_initial)));
      [|reflexivity].
    apply (run_reachable_turn two_model_env (Occurs FirstUpdated) run_initial);
      [|reflexivity].
    apply run_reachable_initial. }
  destruct pendingCalls_settles_with_batch as (_ & _ & Hc & He & Hi).
  split; [|split].
  - apply (Hc two_model_env 0%nat one_failed_run). reflexivity.
  - apply (He two_model_env 0%nat [Failed; Pending] one_failed_run Hrun).
    + reflexivity.
    + left. reflexivity.
  - apply (Hi one_failed_run Hrun).
Defined.

(** ** When the table getter returns *)

Lemma number_cell_not_throws (Number_toString : number → string)
    (x : number) :
  is_CellThrows (number_cell Number_toString x) = false.
Proof. unfold number_cell. by destruct (rem1_nonzero x). Qed.

Lemma inherited_cell_not_throws (Number_toString : number → string)
    (inherited : list string → Inherited) (path : list string) :
  inherited path ≠ ReadThrows →
  is_CellThrows (inherited_cell Number_toString inherited path) = false.
Proof.
  intros H. unfold inherited_cell.
  destruct (inherited path); try done. apply number_cell_not_throws.
Qed.

(** In a host where no read of an inherited property throws, no cell of the
    table is a thrown error: the getter returns the table. *)
Lemma tableData_returns (Number_toString : number → string)
    (inherited : list string → Inherited) (st : State) :
  (∀ path, inherited path ≠ ReadThrows) →
  tableData_throws Number_toString inherited st = false.
Proof.
  intros Hhost. unfold tableData_throws.
  destruct (existsb _ _) eqn:E; [|done]. exfalso.
  apply existsb_exists in E as (cells & Hin & Hc).
  apply existsb_exists in Hc as (cell & Hcell & Hthrow).
  apply list_elem_of_In, list_elem_of_lookup in Hin as [i Hi].
  unfold tableData in Hi. simpl table_data in Hi.
  rewrite list_lookup_imap in Hi.
  destruct ((map_to_list (metricsMap st)).*2 !! i) as [row|]; [|done].
  injection Hi as <-. unfold table_row in Hcell.
  apply in_app_or in Hcell as [Hcell|Hcell].
  { simpl in Hcell. destruct Hcell as [<-|[<-|[<-|[<-|[<-|[]]]]]]; done. }
  apply in_app_or in Hcell as [Hcell|Hcell];
    apply in_map_iff in Hcell as (name & <- & _).
  - unfold facet_cell in Hthrow.
    destruct (facets row) as [fm|]; [|done].
    destruct (FacetMap_get fm name) as [v|];
      [by destruct (String.eqb v "")|].
    pose proof (Hhost [name]) as Hn.
    destruct (inherited [name]) as [|x|[|]|]; try done.
    by destruct (number_truthy x).
  - unfold metric_cell in Hthrow.
    destruct (headMetrics row !! _) as [metricsValues|].
    + destruct (metricsValues !! _) as [num|].
      * by rewrite number_cell_not_throws in Hthrow.
      * by rewrite inherited_cell_not_throws in Hthrow.
    + match type of Hthrow with
      | context [inherited [?g]] =>
          pose proof (Hhost [g]) as Hn; destruct (inherited [g]); try done
      end; by rewrite inherited_cell_not_throws in Hthrow.
Qed.
